(** * PID simulator: the controller library and the simulation pages

    A shallow embedding of [src/lib/pidController.ts] and of the two
    visualiser components of [src/app/page.tsx].  JavaScript numbers are
    IEEE 754 binary64 values, modelled by Rocq's primitive [float]: the
    arithmetic below rounds, overflows and produces [infinity] and [nan]
    exactly where the source does. *)

From Stdlib Require Import ZArith Lia Bool List.
From Stdlib Require Import Floats.
From stdpp Require Import base option list strings gmap pretty.

Set Warnings "-inexact-float".

(** ** JavaScript numbers *)

Module Js.

(** [Math.max] on two arguments: [NaN] if either is, and [+0] above [-0]. *)
Definition math_max (a b : float) : float :=
  if (is_nan a || is_nan b)%bool then nan
  else if (a <? b)%float then b
  else if (b <? a)%float then a
  else if get_sign a then b else a.

(** [x || 0] for a numeric [x]: the falsy numbers are the zeros and [NaN]. *)
Definition truthy (x : float) : bool := negb (is_nan x || is_zero x).

(** A number the source may find missing ([undefined]). *)
Definition or_zero (x : option float) : float :=
  match x with
  | Some v => if truthy v then v else 0%float
  | None => 0%float
  end.

(** Arithmetic coerces [undefined] to [NaN]. *)
Definition to_number (x : option float) : float :=
  match x with Some v => v | None => nan end.

(** [Array.prototype.slice(start)] with a single argument. *)
Definition slice {A} (start : Z) (l : list A) : list A :=
  let len := Z.of_nat (length l) in
  let k := if (start <? 0)%Z then Z.max (len + start) 0 else Z.min start len in
  drop (Z.to_nat k) l.

(** [Array.prototype.findIndex]: the callback sees the element, its index
    and the whole array; the result is [-1] when nothing matches. *)
Fixpoint findIndex_from {A} (p : A -> Z -> list A -> bool)
    (arr : list A) (i : Z) (rest : list A) : Z :=
  match rest with
  | [] => (-1)%Z
  | x :: rest' => if p x i arr then i else findIndex_from p arr (i + 1)%Z rest'
  end.

Definition findIndex {A} (p : A -> Z -> list A -> bool) (arr : list A) : Z :=
  findIndex_from p arr 0%Z arr.

(** The Number value of an array index (or of [-1]). *)
Definition of_index (i : Z) : float :=
  if (i <? 0)%Z then (- of_uint63 (Uint63.of_Z (- i)))%float
  else of_uint63 (Uint63.of_Z i).

(** The clock after [k] executions of [prevTime + 0.1]. *)
Definition timeAfter (k : nat) (t : float) : float :=
  Nat.iter k (fun prevTime => (prevTime + 0.1)%float) t.

(** [NaN] or an infinity, and a zero of either sign, read on the
    specification of a binary64 value. *)
Definition SFnonfinite (x : spec_float) : bool :=
  match x with
  | S754_nan | S754_infinity _ => true
  | _ => false
  end.

Definition SFis_zero (x : spec_float) : bool :=
  match x with S754_zero _ => true | _ => false end.

(** A value at most zero, and a finite value at least zero. *)
Definition SFnonpos (x : spec_float) : bool :=
  match x with
  | S754_zero _ | S754_finite true _ _ | S754_infinity true => true
  | _ => false
  end.

Definition SFnonneg_fin (x : spec_float) : bool :=
  match x with
  | S754_zero _ | S754_finite false _ _ => true
  | _ => false
  end.

End Js.

(** ** [src/lib/pidController.ts] *)

Module pidController.

Inductive ControllerType := P | PI | PD | PID.

Record PIDController := mkPIDController {
  name : string;
  kp : float;
  ki : float;
  kd : float;
  type : ControllerType;
  integral : float;
  previousError : float
}.

(** [constructor(name, kp, ki, kd, type)] *)
Definition new (name : string) (kp ki kd : float) (type : ControllerType)
    : PIDController :=
  mkPIDController name kp ki kd type 0%float 0%float.

(** The assignments [this.integral = v] and [this.previousError = v]. *)
Definition set_integral (this : PIDController) (v : float) : PIDController :=
  mkPIDController (name this) (kp this) (ki this) (kd this) (type this)
    v (previousError this).

Definition set_previousError (this : PIDController) (v : float)
    : PIDController :=
  mkPIDController (name this) (kp this) (ki this) (kd this) (type this)
    (integral this) v.

(** [update(error, dt)]: the controller as the call leaves it, and the
    returned output. *)
Definition update (this : PIDController) (error dt : float)
    : PIDController * float :=
  let this := set_integral this (integral this + error * dt)%float in
  let derivative := ((error - previousError this) / dt)%float in
  let this := set_previousError this error in
  let output :=
    match type this with
    | P => (kp this * error)%float
    | PI => (kp this * error + ki this * integral this)%float
    | PD => (kp this * error + kd this * derivative)%float
    | PID =>
        (kp this * error + ki this * integral this + kd this * derivative)%float
    end in
  (this, output).

Record SystemCharacteristics := mkSystemCharacteristics {
  processGain : float;
  timeConstant : float;
  deadTime : float
}.

Record Gains := mkGains { g_kp : float; g_ki : float; g_kd : float }.

(** [autoTune(system)], the Ziegler-Nichols formulas. *)
Definition autoTune (system : SystemCharacteristics) : Gains :=
  let ku := (0.6 * processGain system * (timeConstant system / deadTime system))%float in
  let tu := (2 * deadTime system)%float in
  let kp := (0.6 * ku)%float in
  let ki := (1.2 * ku / tu)%float in
  let kd := (0.075 * ku * tu)%float in
  mkGains kp ki kd.

End pidController.


(** ** [src/app/page.tsx] *)

Module Page.

Import pidController.

(** *** Exceptions

    The only exception the modelled code can raise is the [TypeError] of
    calling a property that is not a function. *)

Inductive exn := TypeError.

Inductive completion (A : Type) :=
| Normal (a : A)
| Throw (e : exn).
Arguments Normal {A} a.
Arguments Throw {A} e.

(** *** The single-controller page, [PIDVisualizer] *)

Module PIDVisualizer.

(** One element of the [data] state array. *)
Record Point := mkPoint {
  time : string;
  setpoint : float;
  processVariable : float;
  error : float;
  integral : float;
  output : float;
  disturbance : float
}.

(** The React state read and written by [updateSimulation]. *)
Record State := mkState {
  s_kp : float;
  s_ki : float;
  s_kd : float;
  s_setpoint : float;
  s_data : list Point;
  s_time : float;
  s_disturbance : float
}.

Definition init : State := mkState 1 0 0 0 [] 0 0.

(** The [pidController] callback, closed over the gains. *)
Definition pidController (kp ki kd : float)
    (error integral lastError dt : float) : float :=
  let p := (kp * error)%float in
  let i := (ki * (integral + error * dt))%float in
  let d := (kd * (error - lastError) / dt)%float in
  (p + i + d)%float.

(** [prevData[prevData.length - 1] || { processVariable: 0, integral: 0 }]
    read at the three fields the tick uses; the fallback object has no
    [error], and [lastPoint.error || 0] replaces a falsy one by [0]. *)
Definition lastProcessVariable (prevData : list Point) : float :=
  from_option processVariable 0%float (last prevData).

Definition lastIntegral (prevData : list Point) : float :=
  from_option integral 0%float (last prevData).

Definition lastError (prevData : list Point) : float :=
  Js.or_zero (error <$> last prevData).

Section WithToFixed.

(** [Number.prototype.toFixed], a built-in of the host. *)
Variable toFixed : Z -> float -> string.

(** The point appended by one tick. *)
Definition newPoint (st : State) : Point :=
  let prevData := s_data st in
  let error := (s_setpoint st - lastProcessVariable prevData)%float in
  let integral := (lastIntegral prevData + error * 0.1)%float in
  let output :=
    pidController (s_kp st) (s_ki st) (s_kd st)
      error integral (lastError prevData) 0.1%float in
  let newProcessVariable :=
    (lastProcessVariable prevData + output * 0.1 + s_disturbance st)%float in
  mkPoint (toFixed 1 (s_time st)) (s_setpoint st) newProcessVariable
    error integral output (s_disturbance st).

(** [updateSimulation]: the state after [setTime] and [setData]. *)
Definition updateSimulation (st : State) : State :=
  let newData := s_data st ++ [newPoint st] in
  mkState (s_kp st) (s_ki st) (s_kd st) (s_setpoint st)
    (Js.slice (-100) newData) (s_time st + 0.1)%float (s_disturbance st).

(** [n] consecutive ticks. *)
Fixpoint ticks (n : nat) (st : State) : State :=
  match n with
  | O => st
  | S n' => ticks n' (updateSimulation st)
  end.

(** The points appended by [n] consecutive ticks, oldest first: the log the
    bounded [data] array is compared with. *)
Fixpoint appended (n : nat) (st : State) : list Point :=
  match n with
  | O => []
  | S n' => newPoint st :: appended n' (updateSimulation st)
  end.

End WithToFixed.

End PIDVisualizer.

(** *** The multi-controller page, [AdvancedPIDVisualizer] *)

Module AdvancedPIDVisualizer.

(** An element of the [controllers] state array.  [new PIDController(...)]
    yields an object whose prototype carries [update]; the object spread
    of [updateController] copies the own fields into a plain object, on
    which [controller.update] is [undefined]. *)
Inductive Proto := ClassInstance | PlainObject.

Record Controller := mkController {
  proto : Proto;
  fields : PIDController
}.

Definition cname (o : Controller) : string := name (fields o).

(** The controllers on which [update] can be called. *)
Definition instances (cs : list Controller) : Prop :=
  Forall (fun o => proto o = ClassInstance) cs.

(** [controller.update(error, dt)] on an element of the array. *)
Definition callUpdate (o : Controller) (error dt : float)
    : completion (Controller * float) :=
  match proto o with
  | ClassInstance =>
      let '(c', output) := update (fields o) error dt in
      Normal (mkController ClassInstance c', output)
  | PlainObject => Throw TypeError
  end.

(** What a tick stores under a controller's name. *)
Record Entry := mkEntry {
  processVariable : float;
  error : float;
  output : float
}.

(** A property value of a sample object. *)
Inductive PropertyValue :=
| PEntry (e : Entry)
| PNum (x : float)
| PStr (s : string).

(** One element of the [data] state array: an object keyed by the
    controllers' names and by [time], [setpoint] and [disturbance].  Only
    own properties are modelled; the names inherited from
    [Object.prototype] are not keys any controller of the page has. *)
Abbreviation Sample := (gmap string PropertyValue).

(** [point[name]?.processVariable]: [undefined] unless an entry is there. *)
Definition pv_of (name : string) (point : Sample) : option float :=
  match point !! name with
  | Some (PEntry e) => Some (processVariable e)
  | _ => None
  end.

(** [(prevData[prevData.length - 1]?.[name] || { processVariable: 0,
    integral: 0 }).processVariable].  A truthy primitive found under the
    name has no such property, and arithmetic on it gives [NaN]. *)
Definition lastProcessVariable (prevData : list Sample) (name : string)
    : float :=
  match last prevData with
  | None => 0%float
  | Some point =>
      match point !! name with
      | None => 0%float
      | Some (PEntry e) => processVariable e
      | Some (PNum x) => if Js.truthy x then nan else 0%float
      | Some (PStr s) => if String.eqb s "" then 0%float else nan
      end
  end.

(** The React state read and written by [updateSimulation]. *)
Record State := mkState {
  controllers : list Controller;
  setpoint : float;
  data : list Sample;
  time : float;
  disturbance : float
}.

(** The initial state of the component. *)
Definition init : State :=
  mkState
    [ mkController ClassInstance (new "PID 1" 1 0 0 PID);
      mkController ClassInstance (new "PID 2" 1 0 0 PID) ]
    0 [] 0 0.

(** The body of the [reduce] callback for one controller: the mutated
    controller and the entry assigned to [acc[controller.name]]. *)
Definition simulate (prevData : list Sample) (setpoint disturbance : float)
    (controller : Controller) : completion (Controller * Entry) :=
  let lastPV := lastProcessVariable prevData (cname controller) in
  let error := (setpoint - lastPV)%float in
  match callUpdate controller error 0.1%float with
  | Throw e => Throw e
  | Normal (controller', output) =>
      let newProcessVariable := (lastPV + output * 0.1 + disturbance)%float in
      Normal (controller', mkEntry newProcessVariable error output)
  end.

(** The entry of a controller whose [update] is callable, and the array of
    such controllers after a tick: what [simulate] yields for instances. *)
Definition entryOf (prevData : list Sample) (setpoint disturbance : float)
    (c : PIDController) : Entry :=
  let lastPV := lastProcessVariable prevData (name c) in
  let error := (setpoint - lastPV)%float in
  let output := snd (update c error 0.1%float) in
  mkEntry (lastPV + output * 0.1 + disturbance)%float error output.

Definition stepped (prevData : list Sample) (setpoint : float)
    (cs : list Controller) : list Controller :=
  (fun o =>
     mkController ClassInstance
       (fst (update (fields o)
               (setpoint - lastProcessVariable prevData (cname o))%float
               0.1%float))) <$> cs.

(** [controllers.reduce(..., {})], threading the accumulator object and
    collecting the controllers as mutated in place. *)
Fixpoint reduce (prevData : list Sample) (setpoint disturbance : float)
    (cs : list Controller) (acc : Sample)
    : completion (list Controller * Sample) :=
  match cs with
  | [] => Normal ([], acc)
  | controller :: rest =>
      match simulate prevData setpoint disturbance controller with
      | Throw e => Throw e
      | Normal (controller', entry) =>
          match reduce prevData setpoint disturbance rest
                  (<[cname controller := PEntry entry]> acc) with
          | Throw e => Throw e
          | Normal (rest', acc') => Normal (controller' :: rest', acc')
          end
      end
  end.

(** [{ ...controller, ...updates }]: the fields an update object gives. *)
Record Partial := mkPartial {
  u_name : option string;
  u_kp : option float;
  u_ki : option float;
  u_kd : option float;
  u_type : option ControllerType;
  u_integral : option float;
  u_previousError : option float
}.

(** [{ type: value }], the update object of the mode selector. *)
Definition typeUpdate (value : ControllerType) : Partial :=
  mkPartial None None None None (Some value) None None.

Definition spread (o : Controller) (updates : Partial) : Controller :=
  let c := fields o in
  mkController PlainObject
    (mkPIDController
       (default (name c) (u_name updates))
       (default (kp c) (u_kp updates))
       (default (ki c) (u_ki updates))
       (default (kd c) (u_kd updates))
       (default (type c) (u_type updates))
       (default (integral c) (u_integral updates))
       (default (previousError c) (u_previousError updates))).

(** [updateController(index, updates)] on the [controllers] array.  The
    page passes [activeController], an index into the array; outside the
    array the list is left as it is. *)
Definition updateController (index : nat) (updates : Partial)
    (prevControllers : list Controller) : list Controller :=
  match prevControllers !! index with
  | Some o => <[index := spread o updates]> prevControllers
  | None => prevControllers
  end.

(** [autoTuneController] for the active controller. *)
Definition autoTuneController (activeController : nat)
    (cs : list Controller) : list Controller :=
  let tuningParams := autoTune (mkSystemCharacteristics 1 1 0.1) in
  updateController activeController
    (mkPartial None (Some (g_kp tuningParams)) (Some (g_ki tuningParams))
       (Some (g_kd tuningParams)) None None None)
    cs.

Section WithToFixed.

(** [Number.prototype.toFixed], a built-in of the host. *)
Variable toFixed : Z -> float -> string.

(** The sample object a tick appends, given the reduced accumulator. *)
Definition stamp (st : State) (acc : Sample) : Sample :=
  <["disturbance" := PNum (disturbance st)]>
    (<["setpoint" := PNum (setpoint st)]>
       (<["time" := PStr (toFixed 1 (time st))]> acc)).

(** [newData] once its [time], [setpoint] and [disturbance] are assigned,
    with the controllers as the [reduce] left them. *)
Definition newData (st : State) : completion (list Controller * Sample) :=
  match reduce (data st) (setpoint st) (disturbance st)
          (controllers st) ∅ with
  | Throw e => Throw e
  | Normal (cs', acc) => Normal (cs', stamp st acc)
  end.

(** [updateSimulation]: the state after [setTime] and [setData].  The
    [time] the sample is labelled with is the one the callback closes over,
    the state before [setTime]. *)
Definition updateSimulation (st : State) : completion State :=
  match newData st with
  | Throw e => Throw e
  | Normal (cs', point) =>
      Normal (mkState cs' (setpoint st)
                (Js.slice (-100) (data st ++ [point]))
                (time st + 0.1)%float (disturbance st))
  end.

(** [n] consecutive ticks, stopping at the first exception. *)
Fixpoint ticks (n : nat) (st : State) : completion State :=
  match n with
  | O => Normal st
  | S n' =>
      match updateSimulation st with
      | Throw e => Throw e
      | Normal st' => ticks n' st'
      end
  end.

(** The samples appended by [n] consecutive ticks, oldest first: the log
    the bounded [data] array is compared with. *)
Fixpoint appended (n : nat) (st : State) : list Sample :=
  match n with
  | O => []
  | S n' =>
      match newData st, updateSimulation st with
      | Normal (_, point), Normal st' => point :: appended n' st'
      | _, _ => []
      end
  end.

End WithToFixed.

(** **** The analysis tab *)

(** [steadyStateError]: the last error if within [0.01], else ['N/A']. *)
Definition steadyStateError (data : list Sample) (name : string)
    : option float :=
  let error :=
    match last data with
    | Some point =>
        match point !! name with
        | Some (PEntry e) => Some (error e)
        | _ => None
        end
    | None => None
    end in
  if (abs (Js.to_number error) <? 0.01)%float then Some (Js.to_number error)
  else None.

(** The running maximum of the [reduce] in [overshoot], seeded with [0]. *)
Definition peak (data : list Sample) (name : string) : float :=
  foldl (fun max point => Js.math_max max (Js.or_zero (pv_of name point)))
    0%float data.

(** [overshoot] *)
Definition overshoot (data : list Sample) (name : string) (setpoint : float)
    : float :=
  (peak data name - setpoint)%float.

(** The tolerance test shared by the two conjuncts of [settlingTime]. *)
Definition within_band (name : string) (setpoint : float) (point : Sample)
    : bool :=
  (abs (Js.to_number (pv_of name point) - setpoint) <? 0.05 * setpoint)%float.

(** The index found by [data.findIndex(...)], [-1] if there is none. *)
Definition settlingIndex (data : list Sample) (name : string)
    (setpoint : float) : Z :=
  Js.findIndex
    (fun point i arr =>
       (0 <? i)%Z && within_band name setpoint point
       && forallb (within_band name setpoint) (Js.slice i arr))
    data.

(** [settlingTime] *)
Definition settlingTime (data : list Sample) (name : string)
    (setpoint : float) : float :=
  (Js.of_index (settlingIndex data name setpoint) * 0.1)%float.

End AdvancedPIDVisualizer.

End Page.

(** ** The rest of the code: call sequences, handlers, scene, export *)

(** *** Successive calls of [update] *)

Module Calls.

Import pidController.

(** The calls [this.update(error, dt)] made one after the other on one
    controller: the controller after the last call and the outputs in the
    order of the calls. *)
Fixpoint updates (this : PIDController) (calls : list (float * float))
    : PIDController * list float :=
  match calls with
  | [] => (this, [])
  | (error, dt) :: rest =>
      let '(this, output) := update this error dt in
      let '(this, outputs) := updates this rest in
      (this, output :: outputs)
  end.

(** A controller at rest: nothing accumulated, and gains that are numbers. *)
Definition atRest (c : PIDController) : Prop :=
  is_zero (integral c) = true /\ is_zero (previousError c) = true
  /\ is_finite (kp c) = true /\ is_finite (ki c) = true
  /\ is_finite (kd c) = true.

End Calls.

(** *** The event handlers of the two pages

    The values a handler takes from its host ([Math.random()],
    [parseFloat(customSetpoint)], the slider position) are the arguments of
    the events.  [toggleSimulation] only decides whether frames are
    scheduled; a [Tick] is a frame that runs. *)

Module Handlers.

Import pidController Page.

Module PIDVisualizer.

Import Page.PIDVisualizer.

Inductive Event :=
| Tick
| SetKp (value : float)
| SetKi (value : float)
| SetKd (value : float)
| ChangeSetpoint (random : float)
| ApplyCustomSetpoint (newSetpoint : float)
| ApplyDisturbance (random : float)
| FindOptimalSettings.

Definition setGains (kp ki kd : float) (st : State) : State :=
  mkState kp ki kd (s_setpoint st) (s_data st) (s_time st) (s_disturbance st).

Definition setSetpoint (v : float) (st : State) : State :=
  mkState (s_kp st) (s_ki st) (s_kd st) v (s_data st) (s_time st)
    (s_disturbance st).

Definition setDisturbance (v : float) (st : State) : State :=
  mkState (s_kp st) (s_ki st) (s_kd st) (s_setpoint st) (s_data st)
    (s_time st) v.

(** [changeSetpoint]: a random value between [-1] and [1]. *)
Definition changeSetpoint (random : float) (st : State) : State :=
  setSetpoint (random * 2 - 1)%float st.

(** [applyCustomSetpoint]: the parsed input, unless it is [NaN]. *)
Definition applyCustomSetpoint (newSetpoint : float) (st : State) : State :=
  if is_nan newSetpoint then st else setSetpoint newSetpoint st.

(** [applyDisturbance]: a random value between [-0.25] and [0.25]. *)
Definition applyDisturbance (random : float) (st : State) : State :=
  setDisturbance (random * 0.5 - 0.25)%float st.

(** [findOptimalSettings] *)
Definition findOptimalSettings (st : State) : State :=
  setGains 1.5 0.5 0.75 st.

Section WithToFixed.

Variable toFixed : Z -> float -> string.

Definition handle (st : State) (ev : Event) : State :=
  match ev with
  | Tick => updateSimulation toFixed st
  | SetKp v => setGains v (s_ki st) (s_kd st) st
  | SetKi v => setGains (s_kp st) v (s_kd st) st
  | SetKd v => setGains (s_kp st) (s_ki st) v st
  | ChangeSetpoint r => changeSetpoint r st
  | ApplyCustomSetpoint v => applyCustomSetpoint v st
  | ApplyDisturbance r => applyDisturbance r st
  | FindOptimalSettings => findOptimalSettings st
  end.

Definition run (evs : list Event) (st : State) : State :=
  foldl handle st evs.

End WithToFixed.

(** Two neighbours of the [data] array: the later point was computed from
    the earlier one. *)
Definition follows (a b : Point) : Prop :=
  error b = (setpoint b - processVariable a)%float
  /\ integral b = (integral a + error b * 0.1)%float
  /\ processVariable b
     = (processVariable a + output b * 0.1 + disturbance b)%float.

Definition chained (data : list Point) : Prop :=
  forall (k : nat) (a b : Point),
    data !! k = Some a -> data !! S k = Some b -> follows a b.

(** [Math.random()] returns a number in [0, 1): an event that carries its
    result carries a number. *)
Definition randomIsNumber (ev : Event) : Prop :=
  match ev with
  | ChangeSetpoint r | ApplyDisturbance r => is_nan r = false
  | _ => True
  end.

(** The page at rest: zero setpoint and disturbance, gains that are
    numbers, and a last point, if any, with nothing accumulated. *)
Definition atRest (st : State) : Prop :=
  is_zero (s_setpoint st) = true /\ is_zero (s_disturbance st) = true
  /\ is_finite (s_kp st) = true /\ is_finite (s_ki st) = true
  /\ is_finite (s_kd st) = true
  /\ forall p, last (s_data st) = Some p ->
       is_zero (processVariable p) = true /\ is_zero (integral p) = true
       /\ is_zero (error p) = true.

End PIDVisualizer.

Module AdvancedPIDVisualizer.

Import Page.AdvancedPIDVisualizer.

Inductive Event :=
| Tick
| ChangeSetpoint (random : float)
| ApplyCustomSetpoint (newSetpoint : float)
| ApplyDisturbance (random : float)
| AddController
| UpdateController (index : nat) (updates : Partial)
| AutoTune (activeController : nat).

Definition setControllers (cs : list Controller) (st : State) : State :=
  mkState cs (setpoint st) (data st) (time st) (disturbance st).

Definition setSetpoint (v : float) (st : State) : State :=
  mkState (controllers st) v (data st) (time st) (disturbance st).

Definition setDisturbance (v : float) (st : State) : State :=
  mkState (controllers st) (setpoint st) (data st) (time st) v.

Definition changeSetpoint (random : float) (st : State) : State :=
  setSetpoint (random * 2 - 1)%float st.

Definition applyCustomSetpoint (newSetpoint : float) (st : State) : State :=
  if is_nan newSetpoint then st else setSetpoint newSetpoint st.

Definition applyDisturbance (random : float) (st : State) : State :=
  setDisturbance (random * 0.5 - 0.25)%float st.

(** The name the [Add Controller] button gives: [PID] and the new length. *)
Definition controllerName (n : nat) : string := "PID " +:+ pretty n.

(** The [Add Controller] button. *)
Definition addController (cs : list Controller) : list Controller :=
  cs ++ [mkController ClassInstance
           (new (controllerName (length cs + 1)) 1 0 0 PID)].

Section WithToFixed.

Variable toFixed : Z -> float -> string.

Definition handle (st : State) (ev : Event) : completion State :=
  match ev with
  | Tick => updateSimulation toFixed st
  | ChangeSetpoint r => Normal (changeSetpoint r st)
  | ApplyCustomSetpoint v => Normal (applyCustomSetpoint v st)
  | ApplyDisturbance r => Normal (applyDisturbance r st)
  | AddController => Normal (setControllers (addController (controllers st)) st)
  | UpdateController index updates =>
      Normal (setControllers (updateController index updates (controllers st)) st)
  | AutoTune activeController =>
      Normal (setControllers
                (autoTuneController activeController (controllers st)) st)
  end.

(** The events in order, up to the first exception. *)
Fixpoint run (evs : list Event) (st : State) : completion State :=
  match evs with
  | [] => Normal st
  | ev :: rest =>
      match handle st ev with
      | Throw e => Throw e
      | Normal st' => run rest st'
      end
  end.

End WithToFixed.

(** The events that replace a controller by a spread copy. *)
Definition spreads (ev : Event) : bool :=
  match ev with
  | UpdateController _ _ | AutoTune _ => true
  | _ => false
  end.

Definition isTick (ev : Event) : bool :=
  match ev with Tick => true | _ => false end.

Definition isAdd (ev : Event) : bool :=
  match ev with AddController => true | _ => false end.

(** [Math.random()] returns a number in [0, 1): an event that carries its
    result carries a number. *)
Definition randomIsNumber (ev : Event) : Prop :=
  match ev with
  | ChangeSetpoint r | ApplyDisturbance r => is_nan r = false
  | _ => True
  end.

(** Two neighbours of the [data] array: every entry of the later sample was
    computed from the earlier one and from the later one's own [setpoint]
    and [disturbance]. *)
Definition follows (a b : Sample) : Prop :=
  forall (name : string) (e : Entry),
    b !! name = Some (PEntry e) ->
    exists sp d : float,
      b !! "setpoint" = Some (PNum sp) /\ b !! "disturbance" = Some (PNum d)
      /\ error e = (sp - lastProcessVariable [a] name)%float
      /\ processVariable e
         = (lastProcessVariable [a] name + output e * 0.1 + d)%float.

Definition chained (data : list Sample) : Prop :=
  forall (k : nat) (a b : Sample),
    data !! k = Some a -> data !! S k = Some b -> follows a b.

(** The page at rest: zero setpoint and disturbance, controllers at rest,
    and a last sample, if any, whose process variables are zeros. *)
Definition atRest (st : State) : Prop :=
  is_zero (setpoint st) = true /\ is_zero (disturbance st) = true
  /\ Forall (fun o => Calls.atRest (fields o)) (controllers st)
  /\ Forall (fun o => is_zero (lastProcessVariable (data st) (cname o)) = true)
       (controllers st).

End AdvancedPIDVisualizer.

End Handlers.

(** *** The 3D scene, [src/unnamed/part_000] *)

Module Scene.

Record PIDControllerProps := mkProps {
  kp : float;
  ki : float;
  kd : float;
  disturbance : float;
  setpoint : float
}.

(** [pidState.current] *)
Record PidState := mkPidState {
  integral : float;
  prevError : float
}.

(** The argument of [onUpdate]. *)
Record Update := mkUpdate {
  error : float;
  output : float
}.

(** The callback given to [useFrame].  [pillar] is [pillarRef.current], read
    at its [rotation.x], and [None] while the ref is not attached.  The
    result is the rotation, the state and what [onUpdate] receives, if it
    is called. *)
Definition useFrame (props : PIDControllerProps) (pillar : option float)
    (pidState : PidState) (delta : float)
    : option float * PidState * option Update :=
  match pillar with
  | None => (None, pidState, None)
  | Some currentRotation =>
      let targetRotation := setpoint props in
      let error := (targetRotation - currentRotation + disturbance props)%float in
      let integral := (integral pidState + error * delta)%float in
      let derivative := ((error - prevError pidState) / delta)%float in
      let output :=
        (kp props * error + ki props * integral + kd props * derivative)%float in
      let rotation := (currentRotation + output * delta)%float in
      (Some rotation, mkPidState integral error, Some (mkUpdate error rotation))
  end.

(** The frames of the scene in order, each with the props of its render and
    its [delta]; the updates are those [onUpdate] was called with. *)
Fixpoint frames (pillar : option float) (pidState : PidState)
    (fs : list (PIDControllerProps * float))
    : option float * PidState * list Update :=
  match fs with
  | [] => (pillar, pidState, [])
  | (props, delta) :: rest =>
      let '(pillar', pidState', u) := useFrame props pillar pidState delta in
      let '(pillar'', pidState'', us) := frames pillar' pidState' rest in
      (pillar'', pidState'', from_option (fun x => [x]) [] u ++ us)
  end.

End Scene.

(** *** [src/lib/dataExport.ts] *)

Module dataExport.

Import Page.

(** A property value of a row: a number, a string, a plain object (of any
    content [O]), [undefined] or [null]. *)
Inductive Value (O : Type) :=
| VNumber (x : float)
| VString (s : string)
| VObject (o : O)
| VUndefined
| VNull.
Arguments VNumber {O} x.
Arguments VString {O} s.
Arguments VObject {O} o.
Arguments VUndefined {O}.
Arguments VNull {O}.

(** A row object: its own enumerable properties in property order. *)
Abbreviation Row O := (list (string * Value O)).

(** What the export leaves behind: the link that was clicked. *)
Record Link := mkLink {
  href : string;
  download : string
}.

(** [Array.prototype.join] on strings. *)
Fixpoint join (sep : string) (l : list string) : string :=
  match l with
  | [] => ""
  | [x] => x
  | x :: rest => x +:+ sep +:+ join sep rest
  end.

(** The string ["\n"]. *)
Definition newline : string := String.String (Ascii.ascii_of_nat 10) "".

Section WithHost.

(** The built-ins of the host: the string of a number, and [encodeURI]. *)
Variable numberToString : float -> string.
Variable encodeURI : string -> string.

(** The string [join] makes of an element: empty for [undefined] and
    [null], [ToString] otherwise. *)
Definition element {O} (v : Value O) : string :=
  match v with
  | VNumber x => numberToString x
  | VString s => s
  | VObject _ => "[object Object]"
  | VUndefined | VNull => ""
  end.

(** [csvContent]; [Object.keys(data[0])] throws on an empty array. *)
Definition csvContent {O} (data : list (Row O)) : completion string :=
  match data with
  | [] => Throw TypeError
  | first :: _ =>
      Normal
        ("data:text/csv;charset=utf-8,"
         +:+ join "," (fst <$> first) +:+ newline
         +:+ join newline
               ((fun row => join "," (element <$> (snd <$> row))) <$> data))
  end.

(** [exportToCSV(data, filename)] *)
Definition exportToCSV {O} (data : list (Row O)) (filename : string)
    : completion Link :=
  match csvContent data with
  | Throw e => Throw e
  | Normal csv => Normal (mkLink (encodeURI csv) filename)
  end.

End WithHost.

(** The same row with the content of its objects replaced. *)
Definition mapObjects {O O'} (f : O -> O') (row : Row O) : Row O' :=
  (fun kv =>
     (fst kv,
      match snd kv with
      | VNumber x => VNumber x
      | VString s => VString s
      | VObject o => VObject (f o)
      | VUndefined => VUndefined
      | VNull => VNull
      end)) <$> row.

End dataExport.

(** *** Sign classes of binary64 values *)

Module SignClass.

(** A value whose sign bit is [s], or [NaN]. *)
Definition SFsigned (s : bool) (x : spec_float) : bool :=
  match x with
  | S754_nan => true
  | S754_zero s' | S754_infinity s' | S754_finite s' _ _ => Bool.eqb s s'
  end.

Definition signed (s : bool) (x : float) : bool := SFsigned s (Prim2SF x).

End SignClass.

(** * Properties *)

(** ** Facts about binary64 arithmetic *)

Module FloatFacts.

Import Js.

Lemma SFcompare_refl x : x <> S754_nan -> SFcompare x x = Some Eq.
Proof.
  destruct x as [s|s| |s m e]; try congruence; intros _; simpl.
  - reflexivity.
  - destruct s; reflexivity.
  - rewrite Z.compare_refl, Pos.compare_cont_refl. destruct s; reflexivity.
Qed.

Lemma is_nan_spec x :
  is_nan x = match Prim2SF x with S754_nan => true | _ => false end.
Proof.
  unfold is_nan. rewrite FloatAxioms.eqb_spec. unfold SFeqb.
  destruct (Prim2SF x) eqn:E; try reflexivity;
    rewrite SFcompare_refl by congruence; reflexivity.
Qed.

Lemma is_infinity_spec x :
  is_infinity x = match Prim2SF x with S754_infinity _ => true | _ => false end.
Proof.
  unfold is_infinity. rewrite FloatAxioms.eqb_spec, abs_spec.
  destruct (Prim2SF x) as [s|s| |s m e]; reflexivity.
Qed.

Lemma is_finite_spec x : is_finite x = negb (SFnonfinite (Prim2SF x)).
Proof.
  unfold is_finite. rewrite is_nan_spec, is_infinity_spec.
  destruct (Prim2SF x); reflexivity.
Qed.

Lemma is_zero_spec x : is_zero x = SFis_zero (Prim2SF x).
Proof.
  unfold is_zero. rewrite FloatAxioms.eqb_spec.
  destruct (Prim2SF x) as [s|s| |s m e]; try reflexivity.
  - destruct s; reflexivity.
  - destruct s; reflexivity.
Qed.

(** Division by a zero of either sign never gives a finite number. *)
Lemma div_zero_nonfinite x d :
  is_zero d = true -> is_finite (x / d) = false.
Proof.
  rewrite is_zero_spec, is_finite_spec, div_spec. unfold SF64div.
  destruct (Prim2SF d); try discriminate; intros _.
  destruct (Prim2SF x); reflexivity.
Qed.

Lemma mul_nonfinite_r x y :
  is_finite y = false -> is_finite (x * y) = false.
Proof.
  rewrite !is_finite_spec, mul_spec. unfold SF64mul.
  destruct (Prim2SF y); try discriminate; intros _;
    destruct (Prim2SF x); reflexivity.
Qed.

Lemma add_nonfinite_r x y :
  is_finite y = false -> is_finite (x + y) = false.
Proof.
  rewrite !is_finite_spec, add_spec. unfold SF64add.
  destruct (Prim2SF y) as [s|s| |s m e]; try discriminate; intros _;
    destruct (Prim2SF x) as [s'|s'| |s' m' e']; try reflexivity;
    destruct s, s'; reflexivity.
Qed.

(** A finite float times a zero is a zero. *)
Lemma mul_finite_zero x d :
  is_finite x = true -> is_zero d = true -> is_zero (x * d) = true.
Proof.
  rewrite is_finite_spec, !is_zero_spec, mul_spec. unfold SF64mul.
  destruct (Prim2SF d); try discriminate.
  destruct (Prim2SF x); try discriminate; reflexivity.
Qed.

(** An infinity or [NaN] times a zero is [NaN]. *)
Lemma mul_nonfinite_zero x d :
  is_finite x = false -> is_zero d = true -> is_nan (x * d) = true.
Proof.
  rewrite is_finite_spec, is_zero_spec, is_nan_spec, mul_spec. unfold SF64mul.
  destruct (Prim2SF d); try discriminate.
  destruct (Prim2SF x); try discriminate; reflexivity.
Qed.

Lemma SFcompare_swap x y :
  SFcompare y x = option_map CompOpp (SFcompare x y).
Proof.
  destruct x as [s|s| |s m e], y as [s'|s'| |s' m' e']; simpl;
    try reflexivity; try (destruct s; reflexivity); try (destruct s'; reflexivity);
    try (destruct s, s'; reflexivity).
  destruct s, s'; try reflexivity;
    rewrite (Z.compare_antisym e e'); destruct (e ?= e')%Z; simpl; try reflexivity;
    rewrite (Pos.compare_cont_antisym m m' Eq); simpl; try reflexivity.
Qed.

Lemma SFleb_trans x y z : SFleb x y = true -> SFleb y z = true -> SFleb x z = true.
Proof.
  unfold SFleb.
  destruct x as [s1|s1| |s1 m1 e1], y as [s2|s2| |s2 m2 e2], z as [s3|s3| |s3 m3 e3];
    simpl; try discriminate; try reflexivity;
    try (destruct s1; simpl; try discriminate; try reflexivity);
    try (destruct s2; simpl; try discriminate; try reflexivity);
    try (destruct s3; simpl; try discriminate; try reflexivity).
  all: repeat match goal with
       | |- context [PosDef.Pos.compare_cont Eq ?a ?b] =>
           change (PosDef.Pos.compare_cont Eq a b) with (Pos.compare a b)
       end.
  all: destruct (Z.compare_spec e1 e2); try discriminate;
       destruct (Z.compare_spec e2 e3); try discriminate;
       destruct (Z.compare_spec e1 e3); try lia; try reflexivity.
  all: destruct (Pos.compare_spec m1 m2); simpl; try discriminate;
       destruct (Pos.compare_spec m2 m3); simpl; try discriminate;
       destruct (Pos.compare_spec m1 m3); simpl; try lia; try reflexivity.
Qed.

Lemma shr_1_nonneg mrs : (0 <= shr_m mrs)%Z -> (0 <= shr_m (shr_1 mrs))%Z.
Proof.
  destruct mrs as [m r s]. simpl.
  destruct m as [|p|p]; simpl; intros H; try lia; destruct p; simpl; lia.
Qed.

Lemma iter_shr_1_nonneg p :
  forall mrs, (0 <= shr_m mrs)%Z -> (0 <= shr_m (SpecFloat.iter_pos shr_1 p mrs))%Z.
Proof.
  induction p as [p IH|p IH|]; intros mrs H; simpl.
  - apply IH, IH, shr_1_nonneg, H.
  - apply IH, IH, H.
  - apply shr_1_nonneg, H.
Qed.

Lemma shr_fexp_nonneg m e l :
  (0 <= m)%Z -> (0 <= shr_m (fst (shr_fexp prec emax m e l)))%Z.
Proof.
  intros H. unfold shr_fexp, shr.
  assert (H0 : (0 <= shr_m (shr_record_of_loc m l))%Z)
    by (destruct l as [|[]]; exact H).
  destruct (_ - e)%Z; simpl; try exact H0.
  apply iter_shr_1_nonneg, H0.
Qed.

Lemma round_nearest_even_nonneg m l :
  (0 <= m)%Z -> (0 <= round_nearest_even m l)%Z.
Proof.
  intros H. destruct l as [|[]]; simpl; try lia.
  destruct (Z.even m); lia.
Qed.

(** Rounding a non-negative mantissa keeps the sign it is given. *)
Lemma binary_round_aux_sign sx mx ex lx :
  (0 <= mx)%Z ->
  match binary_round_aux prec emax sx mx ex lx with
  | S754_zero s | S754_infinity s | S754_finite s _ _ => s = sx
  | S754_nan => False
  end.
Proof.
  intros H. unfold binary_round_aux.
  pose proof (shr_fexp_nonneg mx ex lx H) as H1.
  destruct (shr_fexp prec emax mx ex lx) as [mrs' e']. simpl in H1.
  pose proof (shr_fexp_nonneg
                (round_nearest_even (shr_m mrs') (loc_of_shr_record mrs')) e'
                loc_Exact (round_nearest_even_nonneg _ _ H1)) as H2.
  destruct (shr_fexp prec emax _ e' loc_Exact) as [mrs'' e'']. simpl in H2.
  destruct (shr_m mrs'') as [|p|p]; try lia; try reflexivity.
  destruct (e'' <=? emax - prec)%Z; reflexivity.
Qed.

Lemma binary_round_sign sx mx ex :
  match binary_round prec emax sx mx ex with
  | S754_zero s | S754_infinity s | S754_finite s _ _ => s = sx
  | S754_nan => False
  end.
Proof.
  unfold binary_round.
  destruct (shl_align mx ex _) as [mz ez].
  apply binary_round_aux_sign. lia.
Qed.

Lemma binary_normalize_nonpos m e :
  (m <= 0)%Z -> SFnonpos (binary_normalize prec emax m e false) = true.
Proof.
  intros H. destruct m as [|p|p]; try lia; simpl; [reflexivity|].
  pose proof (binary_round_sign true p e) as Hs.
  destruct (binary_round prec emax true p e); try contradiction; subst; reflexivity.
Qed.

Lemma iter_xO m d : Zpos (Pos.iter xO m d) = (Zpos m * 2 ^ Zpos d)%Z.
Proof.
  induction d as [|d IH] using Pos.peano_ind.
  - simpl. lia.
  - rewrite Pos.iter_succ, Pos2Z.inj_succ, Z.pow_succ_r by lia.
    rewrite (Pos2Z.inj_xO (Pos.iter xO m d)), IH. lia.
Qed.

Lemma digits2_pos_bounds m :
  (2 ^ (Zpos (digits2_pos m) - 1) <= Zpos m < 2 ^ Zpos (digits2_pos m))%Z.
Proof.
  induction m as [m IH|m IH|]; simpl digits2_pos.
  - rewrite Pos2Z.inj_succ, (Pos2Z.inj_xI m).
    replace (Z.succ (Zpos (digits2_pos m)) - 1)%Z with (Z.succ (Zpos (digits2_pos m) - 1))%Z by lia.
    rewrite !Z.pow_succ_r by lia. lia.
  - rewrite Pos2Z.inj_succ, (Pos2Z.inj_xO m).
    replace (Z.succ (Zpos (digits2_pos m)) - 1)%Z with (Z.succ (Zpos (digits2_pos m) - 1))%Z by lia.
    rewrite !Z.pow_succ_r by lia. lia.
  - simpl. lia.
Qed.

(** A valid mantissa has at most [prec] bits, and exactly [prec] above the
    smallest exponent. *)
Lemma bounded_digits m e :
  bounded prec emax m e = true ->
  (emin <= e)%Z /\ (Zpos m < 2 ^ 53)%Z /\ ((emin < e)%Z -> (2 ^ 52 <= Zpos m)%Z).
Proof.
  unfold bounded, canonical_mantissa, fexp. intros H.
  apply andb_true_iff in H as [H _]. apply Z.eqb_eq in H.
  pose proof (digits2_pos_bounds m) as [Hlo Hhi].
  set (d := Zpos (digits2_pos m)) in *.
  assert (Hd : (0 < d)%Z) by (unfold d; lia).
  change prec with 53%Z in *.
  split; [lia|]. split.
  - assert (d <= 53)%Z by lia.
    apply Z.lt_le_trans with (1 := Hhi). apply Z.pow_le_mono_r; lia.
  - intros He. assert (d = 53)%Z by lia.
    replace (d - 1)%Z with 52%Z in Hlo by lia. exact Hlo.
Qed.

Lemma SFsub_nonpos a b :
  valid_binary a = true -> valid_binary b = true ->
  SFnonneg_fin a = true -> SFnonneg_fin b = true ->
  SFleb a b = true ->
  SFnonpos (SF64sub a b) = true.
Proof.
  intros Va Vb Ha Hb Hle.
  destruct a as [sa|sa| |sa ma ea]; try discriminate;
    destruct b as [sb|sb| |sb mb eb]; try discriminate.
  - destruct sa, sb; reflexivity.
  - destruct sb; try discriminate. reflexivity.
  - destruct sa; discriminate.
  - destruct sa, sb; try discriminate.
    unfold SF64sub, SFsub. apply binary_normalize_nonpos.
    simpl in Va, Vb.
    apply bounded_digits in Va as (Ea & Ma & Na).
    apply bounded_digits in Vb as (Eb & Mb & Nb).
    unfold SFleb in Hle. simpl in Hle. unfold cond_Zopp, shl_align.
    change (PosDef.Pos.compare_cont Eq ma mb) with (Pos.compare ma mb) in Hle.
    destruct (Z.compare_spec ea eb) as [E|E|E]; try discriminate.
    + subst eb. rewrite Z.min_id, Z.sub_diag. cbn [fst].
      destruct (Pos.compare_spec ma mb); try discriminate; lia.
    + rewrite Z.min_l by lia. rewrite Z.sub_diag.
      destruct (ea - eb)%Z as [|d|d] eqn:D; try lia. cbn [fst].
      rewrite iter_xO.
      assert (2 <= 2 ^ Zpos d)%Z
        by (change 2%Z with (2 ^ 1)%Z at 1; apply Z.pow_le_mono_r; lia).
      specialize (Nb ltac:(lia)). nia.
Qed.

(** *** The order of primitive floats *)

Lemma leb_not_nan x y :
  (x <=? y)%float = true -> is_nan x = false /\ is_nan y = false.
Proof.
  rewrite leb_spec, !is_nan_spec. unfold SFleb.
  destruct (Prim2SF x), (Prim2SF y); simpl; try discriminate; auto.
Qed.

Lemma leb_refl x : is_nan x = false -> (x <=? x)%float = true.
Proof.
  rewrite leb_spec, is_nan_spec. unfold SFleb. intros H.
  rewrite SFcompare_refl; [reflexivity|].
  intros E. rewrite E in H. discriminate.
Qed.

Lemma leb_trans x y z :
  (x <=? y)%float = true -> (y <=? z)%float = true -> (x <=? z)%float = true.
Proof. rewrite !leb_spec. apply SFleb_trans. Qed.

Lemma ltb_leb x y : (x <? y)%float = true -> (x <=? y)%float = true.
Proof.
  rewrite ltb_spec, leb_spec. unfold SFltb, SFleb.
  destruct (SFcompare (Prim2SF x) (Prim2SF y)) as [[]|]; try discriminate; auto.
Qed.

(** On numbers, [not (x < y)] is [y <= x]. *)
Lemma nltb_leb x y :
  is_nan x = false -> is_nan y = false ->
  (x <? y)%float = false -> (y <=? x)%float = true.
Proof.
  rewrite ltb_spec, leb_spec, !is_nan_spec. unfold SFltb, SFleb.
  rewrite (SFcompare_swap (Prim2SF x) (Prim2SF y)).
  destruct (Prim2SF x) as [s|s| |s m e] eqn:Ex; try discriminate;
    destruct (Prim2SF y) as [s'|s'| |s' m' e'] eqn:Ey; try discriminate;
    intros _ _;
    match goal with
    | |- context [SFcompare ?a ?b] => destruct (SFcompare a b) as [[]|] eqn:E
    end; simpl; try discriminate; try reflexivity;
    destruct s, s'; simpl in E; discriminate.
Qed.

(** The difference of two non-negative finite numbers in increasing order
    is at most zero: rounding does not change the sign. *)
Lemma sub_nonpos a b :
  (0 <=? a)%float = true -> (a <=? b)%float = true -> is_finite b = true ->
  (a - b <=? 0)%float = true.
Proof.
  rewrite !leb_spec, sub_spec, is_finite_spec.
  change (Prim2SF 0) with (S754_zero false).
  pose proof (Prim2SF_valid a) as Va. pose proof (Prim2SF_valid b) as Vb.
  intros H0 Hab Hb.
  assert (Ha' : SFnonneg_fin (Prim2SF a) = true /\ SFnonneg_fin (Prim2SF b) = true).
  { destruct (Prim2SF a) as [sa|sa| |sa ma ea], (Prim2SF b) as [sb|sb| |sb mb eb];
      try discriminate; try (split; reflexivity);
      try (destruct sa; discriminate); try (destruct sb; discriminate);
      destruct sa, sb; try discriminate; split; reflexivity. }
  destruct Ha' as [Ha' Hb'].
  pose proof (SFsub_nonpos _ _ Va Vb Ha' Hb' Hab) as Hs.
  destruct (SF64sub (Prim2SF a) (Prim2SF b)) as [s|s| |s m e];
    try discriminate; destruct s; try discriminate; reflexivity.
Qed.

End FloatFacts.

(** ** The controller: [PIDController.update] *)

Module ControllerSpec.

Import pidController FloatFacts.

(** C1. The output of [update(error, dt)] is fixed by the mode: [kp*error]
    in mode P, [kp*error + ki*integral] in mode PI (with the integral as
    accumulated by this call), [kp*error + kd*(error - previousError)/dt]
    in mode PD (with the previous error as it was before the call), and
    the sum of the three terms in mode PID.  The gains of the terms a mode
    leaves out do not occur in the output: they may take any value.  The
    equations hold for every [dt], in particular for [dt > 0]. *)
Theorem update_output_by_mode :
  forall (n : string) (kp ki kd integral previousError error dt : float),
    snd (update (mkPIDController n kp ki kd P integral previousError) error dt)
      = (kp * error)%float
    /\ snd (update (mkPIDController n kp ki kd PI integral previousError) error dt)
      = (kp * error + ki * (integral + error * dt))%float
    /\ snd (update (mkPIDController n kp ki kd PD integral previousError) error dt)
      = (kp * error + kd * ((error - previousError) / dt))%float
    /\ snd (update (mkPIDController n kp ki kd PID integral previousError) error dt)
      = (kp * error + ki * (integral + error * dt)
         + kd * ((error - previousError) / dt))%float.
Proof. intros. repeat split; reflexivity. Qed.

(** In mode P the integral and derivative gains are ignored. *)
Lemma update_P_ignores_ki_kd n kp ki kd ki' kd' i pe error dt :
  snd (update (mkPIDController n kp ki kd P i pe) error dt)
  = snd (update (mkPIDController n kp ki' kd' P i pe) error dt).
Proof. reflexivity. Qed.

(** [update] as a change of the controller's two state fields only. *)
Lemma update_state c error dt :
  fst (update c error dt)
  = mkPIDController (name c) (kp c) (ki c) (kd c) (type c)
      (integral c + error * dt)%float error.
Proof. reflexivity. Qed.

(** C10. In modes PI and PID the integral term is [ki] times the integral
    as it stands after this call's accumulation, [integral + error*dt],
    and the derivative term of modes PD and PID is built from the
    [previousError] the controller held before the call, not from the
    value the call stores. *)
Theorem update_integral_after_derivative_before :
  forall (c : PIDController) (error dt : float),
    let c' := fst (update c error dt) in
    let out := snd (update c error dt) in
    integral c' = (integral c + error * dt)%float
    /\ previousError c' = error
    /\ match type c with
       | PI => out = (kp c * error + ki c * integral c')%float
       | PID =>
           out = (kp c * error + ki c * integral c'
                  + kd c * ((error - previousError c) / dt))%float
       | PD => out = (kp c * error + kd c * ((error - previousError c) / dt))%float
       | P => out = (kp c * error)%float
       end.
Proof.
  intros c error dt. destruct c as [n p i d t s pe]. simpl.
  repeat split. destruct t; reflexivity.
Qed.

(** The order matters: with the integral read before the accumulation, or
    the previous error read after the assignment, the output would be
    another number. *)
Example update_order_observable :
  let c := mkPIDController "c" 0 1 1 PID 0 0 in
  snd (update c 1 0.5) = 2.5%float
  /\ (kp c * 1 + ki c * integral c
      + kd c * ((1 - previousError c) / 0.5))%float = 2%float
  /\ (kp c * 1 + ki c * integral (fst (update c 1 0.5))
      + kd c * ((1 - previousError (fst (update c 1 0.5))) / 0.5))%float
     = 0.5%float.
Proof. repeat split; reflexivity. Qed.

(** C6, as the code has it.  [update] has no check on [dt] and never
    fails.  With [dt = 0] (of either sign) the derivative is computed all
    the same: modes P and PI do not use it and return [kp*error] and
    [kp*error + ki*(integral + error*dt)]; in modes PD and PID the output
    is an infinity or [NaN], whatever the controller and the error. *)
Theorem update_dt_zero :
  forall (c : PIDController) (error dt : float),
    is_zero dt = true ->
    let out := snd (update c error dt) in
    match type c with
    | P => out = (kp c * error)%float
    | PI => out = (kp c * error + ki c * (integral c + error * dt))%float
    | PD | PID => is_finite out = false
    end.
Proof.
  intros c error dt Hdt.
  pose proof (div_zero_nonfinite (error - previousError c) dt Hdt) as Hd.
  destruct c as [n p i d t s pe]; simpl in *. destruct t; simpl.
  - reflexivity.
  - reflexivity.
  - apply add_nonfinite_r, mul_nonfinite_r, Hd.
  - apply add_nonfinite_r, mul_nonfinite_r, Hd.
Qed.

Lemma update_dt_zero_witness :
  is_zero 0 = true
  /\ is_finite (snd (update (new "PID 1" 1 0 0 PID) 1 0)) = false.
Proof.
  split; [reflexivity |].
  exact (update_dt_zero (new "PID 1" 1 0 0 PID) 1 0 eq_refl).
Defined.

(** C6 fails as stated: a freshly built PID controller with gains
    [1, 0, 0], the page's initial controller, returns [NaN] for
    [update(1, 0)], and with [kd = 2] in mode PD it returns [Infinity]. *)
Lemma update_dt_zero_returns_nan :
  snd (update (new "PID 1" 1 0 0 PID) 1 0) = nan
  /\ is_nan (snd (update (new "PID 1" 1 0 0 PID) 1 0)) = true
  /\ snd (update (new "PID 1" 1 0 2 PD) 1 0) = infinity
  /\ is_infinity (snd (update (new "PID 1" 1 0 2 PD) 1 0)) = true.
Proof. repeat split; reflexivity. Qed.

End ControllerSpec.

(** ** The auto-tuner: [autoTune] *)

Module AutoTuneSpec.

Import pidController FloatFacts.

(** The characterisation the page passes to [autoTune]. *)
Lemma autoTune_page_input :
  autoTune (mkSystemCharacteristics 1 1 0.1)
  = mkGains 3.5999999999999996 35.99999999999999 0.09.
Proof. reflexivity. Qed.

(** C4, as the code has it.  For every input, [autoTune] returns the
    triple of the closed-form formulas [ku = 0.6*processGain*
    (timeConstant/deadTime)], [tu = 2*deadTime], [kp = 0.6*ku],
    [ki = 1.2*ku/tu], [kd = 0.075*ku*tu], each operation rounded to
    binary64.  At [processGain = 1], [timeConstant = 1], [deadTime = 0.1]
    this gives [ku = 6], [tu = 0.2] and the gains [3.5999999999999996],
    [35.99999999999999] and [0.09]: [3.6] and [36] up to rounding, and
    [kd = 0.075*6*0.2 = 0.09]. *)
Theorem autoTune_formulas :
  (forall processGain timeConstant deadTime : float,
     let ku := (0.6 * processGain * (timeConstant / deadTime))%float in
     let tu := (2 * deadTime)%float in
     autoTune (mkSystemCharacteristics processGain timeConstant deadTime)
     = mkGains (0.6 * ku) (1.2 * ku / tu) (0.075 * ku * tu))
  /\ (0.6 * 1 * (1 / 0.1))%float = 6%float
  /\ (2 * 0.1)%float = 0.2%float
  /\ (let g := autoTune (mkSystemCharacteristics 1 1 0.1) in
      g = mkGains 3.5999999999999996 35.99999999999999 0.09
      /\ (abs (g_kp g - 3.6) <? 1e-15)%float = true
      /\ (abs (g_ki g - 36) <? 1e-14)%float = true
      /\ (g_kd g =? 0.09)%float = true).
Proof. repeat split; reflexivity. Qed.

(** C4 fails as stated: for the example input the derivative gain is
    [0.09], not [0.54]. *)
Lemma autoTune_example_kd_not_0_54 :
  g_kd (autoTune (mkSystemCharacteristics 1 1 0.1)) <> 0.54%float
  /\ (g_kd (autoTune (mkSystemCharacteristics 1 1 0.1)) =? 0.54)%float = false
  /\ (g_kd (autoTune (mkSystemCharacteristics 1 1 0.1)) <? 0.1)%float = true.
Proof.
  split; [| split; reflexivity].
  intros H. apply (f_equal (fun x => (x =? 0.54)%float)) in H.
  vm_compute in H. discriminate H.
Qed.

(** C5, as the code has it.  [autoTune] validates nothing and always
    returns the triple of its formulas, also for a dead time that is zero
    or negative.  With [deadTime = 0] (of either sign) no gain is a finite
    number: [kp] and [ki] are infinities or [NaN] and [kd] is [NaN], for
    every process gain and time constant. *)
Theorem autoTune_deadTime_zero :
  forall processGain timeConstant deadTime : float,
    let ku := (0.6 * processGain * (timeConstant / deadTime))%float in
    let tu := (2 * deadTime)%float in
    let g := autoTune (mkSystemCharacteristics processGain timeConstant deadTime) in
    g = mkGains (0.6 * ku) (1.2 * ku / tu) (0.075 * ku * tu)
    /\ (is_zero deadTime = true ->
        is_finite (g_kp g) = false
        /\ is_finite (g_ki g) = false
        /\ is_nan (g_kd g) = true).
Proof.
  intros pg tc dt. cbv zeta. split; [reflexivity|]. intros Hdt. simpl.
  assert (Hku : is_finite (0.6 * pg * (tc / dt)) = false)
    by (apply mul_nonfinite_r, div_zero_nonfinite, Hdt).
  assert (Htu : is_zero (2 * dt) = true)
    by (apply mul_finite_zero; [reflexivity | exact Hdt]).
  repeat split.
  - apply mul_nonfinite_r, Hku.
  - apply div_zero_nonfinite, Htu.
  - apply mul_nonfinite_zero; [apply mul_nonfinite_r, Hku | exact Htu].
Qed.

Lemma autoTune_deadTime_zero_witness :
  is_zero 0 = true
  /\ is_nan (g_kd (autoTune (mkSystemCharacteristics 1 1 0))) = true.
Proof.
  split; [reflexivity |].
  exact (proj2 (proj2 (proj2 (autoTune_deadTime_zero 1 1 0) eq_refl))).
Defined.

(** C5 fails as stated: with [deadTime = 0] the function returns, and its
    result holds [Infinity] twice and [NaN]; with a negative dead time it
    returns ordinary numbers. *)
Lemma autoTune_zero_deadTime_returns :
  (0 <=? 0)%float = true
  /\ autoTune (mkSystemCharacteristics 1 1 0) = mkGains infinity infinity nan
  /\ is_infinity (g_kp (autoTune (mkSystemCharacteristics 1 1 0))) = true
  /\ is_nan (g_kd (autoTune (mkSystemCharacteristics 1 1 0))) = true
  /\ (-0.1 <=? 0)%float = true
  /\ autoTune (mkSystemCharacteristics 1 1 (-0.1))
     = mkGains (-3.5999999999999996) 35.99999999999999 0.09.
Proof. repeat split; reflexivity. Qed.

End AutoTuneSpec.

(** ** The bounded history: [slice(-100)] *)

Module SliceFacts.

Lemma slice_neg {A} (k : nat) (l : list A) :
  (0 < k)%nat -> Js.slice (- Z.of_nat k) l = drop (length l - k) l.
Proof.
  intros Hk. unfold Js.slice.
  destruct (Z.ltb_spec (- Z.of_nat k) 0) as [_|H]; [|lia].
  f_equal. lia.
Qed.

Lemma slice_100 {A} (l : list A) :
  Js.slice (-100) l = drop (length l - 100) l.
Proof. exact (slice_neg 100 l ltac:(lia)). Qed.

Lemma slice_100_length {A} (l : list A) :
  length (Js.slice (-100) l) = Nat.min 100 (length l).
Proof. rewrite slice_100, length_drop. lia. Qed.

Lemma slice_100_short {A} (l : list A) :
  (length l <= 100)%nat -> Js.slice (-100) l = l.
Proof.
  intros H. rewrite slice_100.
  replace (length l - 100)%nat with 0%nat by lia. reflexivity.
Qed.

(** Keeping the last hundred at every step keeps the last hundred overall. *)
Lemma slice_100_app_idem {A} (l r : list A) :
  Js.slice (-100) (Js.slice (-100) l ++ r) = Js.slice (-100) (l ++ r).
Proof.
  rewrite !slice_100, !length_app, length_drop.
  destruct (le_lt_dec (length l) 100) as [Hl|Hl].
  - replace (length l - 100)%nat with 0%nat by lia. simpl.
    f_equal. lia.
  - destruct (le_lt_dec (length r) 100) as [Hr|Hr].
    + rewrite !drop_app_le by (rewrite ?length_drop; lia).
      rewrite drop_drop. f_equal. f_equal. lia.
    + rewrite !drop_app_ge by (rewrite ?length_drop; lia).
      rewrite length_drop. f_equal. lia.
Qed.

(** One insertion: append while there is room, else evict the oldest. *)
Lemma slice_100_push {A} (h : list A) (x : A) :
  let h' := Js.slice (-100) (h ++ [x]) in
  length h' = Nat.min 100 (length h + 1)
  /\ last h' = Some x
  /\ ((length h < 100)%nat -> h' = h ++ [x])
  /\ ((100 <= length h)%nat -> h' = drop (length h - 99) h ++ [x])
  /\ (length h = 100%nat -> h' = tail h ++ [x]).
Proof.
  simpl. rewrite slice_100_length, length_app. simpl.
  assert (E : forall n, (n <= length h)%nat ->
                drop n (h ++ [x]) = drop n h ++ [x])
    by (intros n Hn; apply drop_app_le; exact Hn).
  repeat split.
  - rewrite slice_100, length_app. simpl.
    rewrite E by lia. apply last_snoc.
  - intros H. apply slice_100_short. rewrite length_app. simpl. lia.
  - intros H. rewrite slice_100, length_app. simpl.
    rewrite E by lia. do 2 f_equal. lia.
  - intros H. rewrite slice_100, length_app, H. simpl.
    rewrite E by lia. destruct h; reflexivity.
Qed.

End SliceFacts.

(** ** The simulation loop: [updateSimulation] *)

Module TickSpec.

Import pidController Page SliceFacts.

Import AdvancedPIDVisualizer.

Lemma simulate_instance prev sp d o :
  proto o = ClassInstance ->
  simulate prev sp d o
  = Normal
      (mkController ClassInstance
         (fst (update (fields o) (sp - lastProcessVariable prev (cname o))%float
                 0.1%float)),
       entryOf prev sp d (fields o)).
Proof.
  intros Ho. unfold simulate, callUpdate. rewrite Ho.
  destruct o as [pr c]; simpl in *. reflexivity.
Qed.

Lemma reduce_instances prev sp d cs acc :
  instances cs ->
  reduce prev sp d cs acc
  = Normal
      (stepped prev sp cs,
       foldl (fun a o => <[cname o := PEntry (entryOf prev sp d (fields o))]> a)
         acc cs).
Proof.
  intros H. revert acc. induction H as [|o cs Ho Hcs IH]; intros acc.
  - reflexivity.
  - simpl. rewrite (simulate_instance _ _ _ _ Ho), IH. reflexivity.
Qed.

Lemma stepped_instances prev sp cs : instances (stepped prev sp cs).
Proof.
  unfold instances, stepped. apply Forall_fmap, Forall_forall.
  intros; reflexivity.
Qed.

Lemma foldl_insert_notin (f : Controller -> PropertyValue) cs (acc : Sample) key :
  key ∉ cname <$> cs ->
  foldl (fun a o => <[cname o := f o]> a) acc cs !! key = acc !! key.
Proof.
  revert acc. induction cs as [|o cs IH]; intros acc Hk; [reflexivity|].
  simpl in *. rewrite not_elem_of_cons in Hk. destruct Hk as [Hne Hk].
  rewrite IH by exact Hk. apply lookup_insert_ne. congruence.
Qed.

Lemma foldl_insert_lookup (f : Controller -> PropertyValue) cs (acc : Sample) o :
  NoDup (cname <$> cs) -> o ∈ cs ->
  foldl (fun a o => <[cname o := f o]> a) acc cs !! cname o = Some (f o).
Proof.
  revert acc. induction cs as [|o' cs IH]; intros acc Hnd Hin.
  - inversion Hin.
  - simpl in *. apply NoDup_cons in Hnd as [Hhd Hnd].
    apply elem_of_cons in Hin as [->|Hin].
    + rewrite foldl_insert_notin by exact Hhd. apply lookup_insert_eq.
    + apply IH; assumption.
Qed.

Section WithToFixed.

Variable toFixed : Z -> float -> string.

Lemma newData_instances st :
  instances (controllers st) ->
  newData toFixed st
  = Normal
      (stepped (data st) (setpoint st) (controllers st),
       stamp toFixed st
         (foldl (fun a o =>
                   <[cname o := PEntry (entryOf (data st) (setpoint st)
                                          (disturbance st) (fields o))]> a)
            ∅ (controllers st))).
Proof.
  intros H. unfold newData. rewrite (reduce_instances _ _ _ _ _ H). reflexivity.
Qed.

Lemma updateSimulation_instances st :
  instances (controllers st) ->
  exists point,
    newData toFixed st
    = Normal (stepped (data st) (setpoint st) (controllers st), point)
    /\ updateSimulation toFixed st
       = Normal (mkState (stepped (data st) (setpoint st) (controllers st))
                   (setpoint st) (Js.slice (-100) (data st ++ [point]))
                   (time st + 0.1)%float (disturbance st))
    /\ point !! "time" = Some (PStr (toFixed 1 (time st))).
Proof.
  intros H. eexists. split; [apply newData_instances, H|]. split.
  - unfold updateSimulation. rewrite (newData_instances _ H). reflexivity.
  - unfold stamp. rewrite !lookup_insert_ne by discriminate.
    apply lookup_insert_eq.
Qed.

Lemma stamp_lookup st (acc : Sample) key :
  key ∉ ["time"; "setpoint"; "disturbance"] ->
  stamp toFixed st acc !! key = acc !! key.
Proof.
  intros Hk. unfold stamp.
  rewrite !lookup_insert_ne; [reflexivity | ..];
    intros E; apply Hk; rewrite <- E; set_solver.
Qed.

(** C2. In every tick of the multi-controller loop whose controllers are
    instances with distinct names (none of them [time], [setpoint] or
    [disturbance]), the entry stored for each controller has
    [error = setpoint - lastPV], where [lastPV] is the controller's
    [processVariable] in the last sample and [0] when there is no sample or
    no entry; the disturbance does not enter the error; [output] is what
    [controller.update(error, 0.1)] returns, the controller being left in
    the state that call produces; and the new process variable is
    [lastPV + output*0.1 + disturbance].  The single-controller page
    computes the error and the plant update in the same way, around its own
    [pidController] function. *)
Theorem tick_error_and_plant :
  (forall st : State,
     instances (controllers st) ->
     NoDup (cname <$> controllers st) ->
     Forall (fun o => cname o ∉ ["time"; "setpoint"; "disturbance"])
       (controllers st) ->
     exists st' point,
       updateSimulation toFixed st = Normal st'
       /\ data st' = Js.slice (-100) (data st ++ [point])
       /\ last (data st') = Some point
       /\ forall i o,
            controllers st !! i = Some o ->
            let lastPV := lastProcessVariable (data st) (cname o) in
            let error := (setpoint st - lastPV)%float in
            let r := update (fields o) error 0.1%float in
            point !! cname o
            = Some (PEntry (mkEntry (lastPV + snd r * 0.1 + disturbance st)%float
                              error (snd r)))
            /\ controllers st' !! i = Some (mkController ClassInstance (fst r))
            /\ (data st = [] -> lastPV = 0%float)
            /\ (forall prev, last (data st) = Some prev ->
                  prev !! cname o = None -> lastPV = 0%float)
            /\ (forall prev e, last (data st) = Some prev ->
                  prev !! cname o = Some (PEntry e) ->
                  lastPV = processVariable e))
  /\ (forall st : PIDVisualizer.State,
        let prevData := PIDVisualizer.s_data st in
        let lastPV := PIDVisualizer.lastProcessVariable prevData in
        let p := PIDVisualizer.newPoint toFixed st in
        PIDVisualizer.s_data (PIDVisualizer.updateSimulation toFixed st)
          = Js.slice (-100) (prevData ++ [p])
        /\ (prevData = [] -> lastPV = 0%float)
        /\ (forall prev, last prevData = Some prev ->
              lastPV = PIDVisualizer.processVariable prev)
        /\ PIDVisualizer.error p = (PIDVisualizer.s_setpoint st - lastPV)%float
        /\ PIDVisualizer.output p
           = PIDVisualizer.pidController (PIDVisualizer.s_kp st)
               (PIDVisualizer.s_ki st) (PIDVisualizer.s_kd st)
               (PIDVisualizer.error p)
               (PIDVisualizer.lastIntegral prevData + PIDVisualizer.error p * 0.1)%float
               (PIDVisualizer.lastError prevData) 0.1%float
        /\ PIDVisualizer.processVariable p
           = (lastPV + PIDVisualizer.output p * 0.1
              + PIDVisualizer.s_disturbance st)%float).
Proof.
  split.
  - intros st Hinst Hnd Hres.
    destruct (updateSimulation_instances st Hinst) as (point & Hnew & Hupd & _).
    eexists _, point. split; [exact Hupd|]. simpl.
    split; [reflexivity|].
    split; [apply (slice_100_push (data st) point)|].
    intros i o Hio.
    assert (Hin : o ∈ controllers st) by (eapply list_elem_of_lookup_2; eauto).
    repeat split.
    + rewrite (newData_instances _ Hinst) in Hnew.
      injection Hnew as <-.
      rewrite stamp_lookup
        by (rewrite Forall_forall in Hres; apply Hres; exact Hin).
      rewrite (foldl_insert_lookup
                 (fun o => PEntry (entryOf (data st) (setpoint st)
                                     (disturbance st) (fields o)))
                 _ _ _ Hnd Hin).
      reflexivity.
    + unfold stepped. rewrite list_lookup_fmap, Hio. reflexivity.
    + intros E. unfold lastProcessVariable. rewrite E. reflexivity.
    + intros prev Hl Hp. unfold lastProcessVariable. rewrite Hl, Hp. reflexivity.
    + intros prev e Hl Hp. unfold lastProcessVariable. rewrite Hl, Hp. reflexivity.
  - intros st. simpl. repeat split.
    + intros E. unfold PIDVisualizer.lastProcessVariable. rewrite E. reflexivity.
    + intros prev Hl. unfold PIDVisualizer.lastProcessVariable. rewrite Hl.
      reflexivity.
Qed.

(** *** Runs of ticks and the bounded [data] array *)

Lemma timeAfter_succ k t :
  Js.timeAfter (S k) t = Js.timeAfter k (t + 0.1)%float.
Proof.
  unfold Js.timeAfter.
  exact (Nat.iter_succ_r k (fun prevTime => (prevTime + 0.1)%float) t).
Qed.

Lemma simple_ticks_log n :
  forall st : PIDVisualizer.State,
    (length (PIDVisualizer.s_data st) <= 100)%nat ->
    PIDVisualizer.s_data (PIDVisualizer.ticks toFixed n st)
    = Js.slice (-100)
        (PIDVisualizer.s_data st ++ PIDVisualizer.appended toFixed n st)
    /\ (length (PIDVisualizer.s_data (PIDVisualizer.ticks toFixed n st)) <= 100)%nat.
Proof.
  induction n as [|n IH]; intros st Hlen.
  - simpl. rewrite app_nil_r, slice_100_short by exact Hlen. split; [reflexivity|exact Hlen].
  - simpl. destruct (IH (PIDVisualizer.updateSimulation toFixed st)) as [E L].
    + simpl. rewrite slice_100_length. lia.
    + split; [|exact L]. rewrite E. simpl.
      rewrite slice_100_app_idem, <- app_assoc. reflexivity.
Qed.

Lemma simple_appended_length n :
  forall st, length (PIDVisualizer.appended toFixed n st) = n.
Proof. induction n as [|n IH]; intros st; simpl; [|rewrite IH]; reflexivity. Qed.

Lemma simple_appended_time n :
  forall st k,
    (k < n)%nat ->
    PIDVisualizer.time <$> (PIDVisualizer.appended toFixed n st !! k)
    = Some (toFixed 1 (Js.timeAfter k (PIDVisualizer.s_time st))).
Proof.
  induction n as [|n IH]; intros st k Hk; [lia|].
  destruct k as [|k]; [reflexivity|].
  rewrite timeAfter_succ. exact (IH _ k ltac:(lia)).
Qed.

Lemma adv_ticks_log n :
  forall st : State,
    instances (controllers st) ->
    (length (data st) <= 100)%nat ->
    exists st',
      ticks toFixed n st = Normal st'
      /\ instances (controllers st')
      /\ data st' = Js.slice (-100) (data st ++ appended toFixed n st)
      /\ (length (data st') <= 100)%nat
      /\ length (appended toFixed n st) = n
      /\ forall k, (k < n)%nat ->
           exists point,
             appended toFixed n st !! k = Some point
             /\ point !! "time"
                = Some (PStr (toFixed 1 (Js.timeAfter k (time st)))).
Proof.
  induction n as [|n IH]; intros st Hinst Hlen.
  - exists st. simpl. rewrite app_nil_r, slice_100_short by exact Hlen.
    repeat split; try assumption. intros k Hk. lia.
  - destruct (updateSimulation_instances st Hinst) as (point & Hnew & Hupd & Htime).
    simpl. rewrite Hnew, Hupd.
    match goal with |- context [ticks toFixed n ?s] => set (st1 := s) end.
    destruct (IH st1) as (st' & Ht & Hi & Hd & Hl & Ha & Hk).
    + apply stepped_instances.
    + simpl. rewrite slice_100_length. lia.
    + exists st'. split; [exact Ht|]. split; [exact Hi|].
      split; [|split; [exact Hl|split]].
      * rewrite Hd. simpl. rewrite slice_100_app_idem, <- app_assoc. reflexivity.
      * simpl. rewrite Ha. reflexivity.
      * intros [|k] Hlt.
        -- exists point. split; [reflexivity|exact Htime].
        -- destruct (Hk k ltac:(lia)) as (pt & Hpt & Hptt).
           exists pt. split; [exact Hpt|]. rewrite Hptt, timeAfter_succ.
           reflexivity.
Qed.

(** C3. Each tick stores [slice(-100)] of the old array with the new sample
    appended: the array never holds more than [100] samples, a sample is
    added at the end, and once the array is full the oldest sample, at the
    front, is the one dropped.  Hence after any number of ticks the array
    is the last hundred of all samples appended so far, in the order of
    their insertion; after [150] ticks from an empty array it has exactly
    [100] samples and its first one is the sample of the 51st tick, whose
    [time] is the clock of that tick.  This holds for both pages. *)
Theorem history_buffer_fifo :
  (forall (A : Type) (h : list A) (x : A),
     let h' := Js.slice (-100) (h ++ [x]) in
     length h' = Nat.min 100 (length h + 1)
     /\ last h' = Some x
     /\ ((length h < 100)%nat -> h' = h ++ [x])
     /\ (length h = 100%nat -> h' = tail h ++ [x]))
  /\ (forall (n : nat) (st : State),
        instances (controllers st) ->
        (length (data st) <= 100)%nat ->
        exists st',
          ticks toFixed n st = Normal st'
          /\ data st' = Js.slice (-100) (data st ++ appended toFixed n st)
          /\ (length (data st') <= 100)%nat
          /\ length (appended toFixed n st) = n)
  /\ (forall st : State,
        instances (controllers st) ->
        data st = [] ->
        exists st' point,
          ticks toFixed 150 st = Normal st'
          /\ length (data st') = 100%nat
          /\ head (data st') = Some point
          /\ appended toFixed 150 st !! 50%nat = Some point
          /\ point !! "time"
             = Some (PStr (toFixed 1 (Js.timeAfter 50 (time st)))))
  /\ (forall (n : nat) (st : PIDVisualizer.State),
        (length (PIDVisualizer.s_data st) <= 100)%nat ->
        let st' := PIDVisualizer.ticks toFixed n st in
        PIDVisualizer.s_data st'
        = Js.slice (-100)
            (PIDVisualizer.s_data st ++ PIDVisualizer.appended toFixed n st)
        /\ (length (PIDVisualizer.s_data st') <= 100)%nat
        /\ length (PIDVisualizer.appended toFixed n st) = n)
  /\ (forall st : PIDVisualizer.State,
        PIDVisualizer.s_data st = [] ->
        let st' := PIDVisualizer.ticks toFixed 150 st in
        length (PIDVisualizer.s_data st') = 100%nat
        /\ head (PIDVisualizer.s_data st')
           = PIDVisualizer.appended toFixed 150 st !! 50%nat
        /\ PIDVisualizer.time <$> head (PIDVisualizer.s_data st')
           = Some (toFixed 1 (Js.timeAfter 50 (PIDVisualizer.s_time st)))).
Proof.
  split; [|split; [|split; [|split]]].
  - intros A h x.
    destruct (slice_100_push h x) as (H1 & H2 & H3 & _ & H5).
    repeat split; assumption.
  - intros n st Hinst Hlen.
    destruct (adv_ticks_log n st Hinst Hlen) as (st' & Ht & _ & Hd & Hl & Ha & _).
    exists st'. repeat split; assumption.
  - intros st Hinst Hempty.
    destruct (adv_ticks_log 150 st Hinst) as (st' & Ht & _ & Hd & _ & Ha & Hk).
    { rewrite Hempty. simpl. lia. }
    destruct (Hk 50%nat ltac:(lia)) as (point & Hp & Hpt).
    rewrite Hempty, app_nil_l, slice_100, Ha in Hd.
    exists st', point. split; [exact Ht|].
    rewrite Hd. split; [rewrite length_drop, Ha; reflexivity|].
    split; [|split; assumption].
    rewrite head_lookup, lookup_drop. exact Hp.
  - intros n st Hlen. cbv zeta.
    destruct (simple_ticks_log n st Hlen) as [E L].
    repeat split; [exact E | exact L | apply simple_appended_length].
  - intros st Hempty. cbv zeta.
    destruct (simple_ticks_log 150 st) as [E _].
    { rewrite Hempty. simpl. lia. }
    rewrite Hempty, app_nil_l, slice_100, simple_appended_length in E.
    rewrite E.
    assert (Hh : head (drop (150 - 100) (PIDVisualizer.appended toFixed 150 st))
                 = PIDVisualizer.appended toFixed 150 st !! 50%nat)
      by (rewrite head_lookup, lookup_drop; reflexivity).
    split; [rewrite length_drop, simple_appended_length; reflexivity|].
    split; [exact Hh|].
    rewrite Hh. apply simple_appended_time. lia.
Qed.

End WithToFixed.

(** The first tick of the page as it starts. *)
Lemma tick_error_and_plant_witness :
  exists st' point,
    updateSimulation (fun _ _ => "0.0") init = Normal st'
    /\ last (data st') = Some point
    /\ point !! "PID 2" = Some (PEntry (mkEntry 0 0 0)).
Proof.
  destruct (proj1 (tick_error_and_plant (fun _ _ => "0.0")) init)
    as (st' & point & Hupd & _ & Hlast & Hc).
  - repeat constructor.
  - apply (bool_decide_unpack _). vm_compute. exact I.
  - repeat constructor; apply (bool_decide_unpack _); vm_compute; exact I.
  - exists st', point. split; [exact Hupd|]. split; [exact Hlast|].
    destruct (Hc 1%nat _ eq_refl) as (Hp & _). exact Hp.
Defined.

(** A hundred and fifty ticks of the page as it starts. *)
Lemma history_buffer_fifo_witness :
  exists st' point,
    ticks (fun _ _ => "0.0") 150 init = Normal st'
    /\ length (data st') = 100%nat
    /\ head (data st') = Some point.
Proof.
  destruct (proj1 (proj2 (proj2 (history_buffer_fifo (fun _ _ => "0.0")))) init)
    as (st' & point & Ht & Hl & Hh & _).
  - repeat constructor.
  - reflexivity.
  - exists st', point. repeat split; assumption.
Defined.

End TickSpec.

(** ** The analysis tab: overshoot and settling time *)

Module AnalysisSpec.

Import pidController Page AdvancedPIDVisualizer FloatFacts.

Lemma math_max_spec a b :
  is_nan a = false -> is_nan b = false ->
  (Js.math_max a b = a \/ Js.math_max a b = b)
  /\ (a <=? Js.math_max a b)%float = true
  /\ (b <=? Js.math_max a b)%float = true.
Proof.
  intros Ha Hb. unfold Js.math_max. rewrite Ha, Hb. simpl.
  destruct (a <? b)%float eqn:Eab.
  - split; [right; reflexivity|]. split; [apply ltb_leb, Eab|apply leb_refl, Hb].
  - destruct (b <? a)%float eqn:Eba.
    + split; [left; reflexivity|].
      split; [apply leb_refl, Ha|apply ltb_leb, Eba].
    + pose proof (nltb_leb a b Ha Hb Eab) as Hba.
      pose proof (nltb_leb b a Hb Ha Eba) as Hab.
      destruct (get_sign a).
      * split; [right; reflexivity|]. split; [exact Hab|apply leb_refl, Hb].
      * split; [left; reflexivity|]. split; [apply leb_refl, Ha|exact Hba].
Qed.

Lemma math_max_not_nan a b :
  is_nan a = false -> is_nan b = false -> is_nan (Js.math_max a b) = false.
Proof.
  intros Ha Hb. destruct (math_max_spec a b Ha Hb) as [[-> | ->] _]; assumption.
Qed.

(** [reduce] with [Math.max] over numbers computes an upper bound that is
    the seed or one of the elements. *)
Lemma foldl_max_spec xs :
  forall m0,
    is_nan m0 = false ->
    Forall (fun x => is_nan x = false) xs ->
    let M := foldl Js.math_max m0 xs in
    is_nan M = false
    /\ (m0 <=? M)%float = true
    /\ Forall (fun x => (x <=? M)%float = true) xs
    /\ (M = m0 \/ M ∈ xs).
Proof.
  induction xs as [|x xs IH]; intros m0 Hm0 Hxs; simpl.
  - repeat split; [exact Hm0 | apply leb_refl, Hm0 | constructor | left; reflexivity].
  - apply Forall_cons in Hxs as [Hx Hxs].
    destruct (math_max_spec m0 x Hm0 Hx) as (Hcase & Hle0 & Hlex).
    destruct (IH (Js.math_max m0 x) (math_max_not_nan _ _ Hm0 Hx) Hxs)
      as (Hn & Hle & Hall & Hin).
    repeat split.
    + exact Hn.
    + eapply leb_trans; eassumption.
    + constructor; [eapply leb_trans; eassumption | exact Hall].
    + destruct Hin as [-> | Hin].
      * destruct Hcase as [-> | ->]; [left; reflexivity | right; left].
      * right; right; exact Hin.
Qed.

Lemma or_zero_not_nan o : is_nan (Js.or_zero o) = false.
Proof.
  destruct o as [v|]; simpl; [|reflexivity].
  unfold Js.truthy. destruct (is_nan v) eqn:E; simpl; [reflexivity|].
  destruct (is_zero v); simpl; [reflexivity | exact E].
Qed.

Lemma or_zero_cases o :
  Js.or_zero o = 0%float \/ o = Some (Js.or_zero o).
Proof.
  destruct o as [v|]; simpl; [|left; reflexivity].
  destruct (Js.truthy v); [right|left]; reflexivity.
Qed.

Lemma peak_fold data name :
  peak data name
  = foldl Js.math_max 0%float ((fun point => Js.or_zero (pv_of name point)) <$> data).
Proof. unfold peak. rewrite foldl_fmap. reflexivity. Qed.

Lemma peak_spec data name :
  is_nan (peak data name) = false
  /\ (0 <=? peak data name)%float = true
  /\ (forall point, point ∈ data ->
        (Js.or_zero (pv_of name point) <=? peak data name)%float = true)
  /\ (peak data name = 0%float
      \/ exists point, point ∈ data /\ pv_of name point = Some (peak data name)).
Proof.
  rewrite peak_fold.
  destruct (foldl_max_spec
              ((fun point => Js.or_zero (pv_of name point)) <$> data) 0%float
              eq_refl) as (Hn & H0 & Hall & Hin).
  { apply Forall_fmap, Forall_forall. intros point _. apply or_zero_not_nan. }
  repeat split; try assumption.
  - intros point Hp. rewrite Forall_fmap, Forall_forall in Hall.
    apply Hall, Hp.
  - destruct Hin as [E | Hin]; [left; exact E|].
    apply list_elem_of_fmap in Hin as (point & E & Hp).
    destruct (or_zero_cases (pv_of name point)) as [Z | S].
    + left. rewrite E. exact Z.
    + right. exists point. split; [exact Hp|]. rewrite E. exact S.
Qed.

(** What line 449 computes.  The overshoot is [peak - setpoint], where
    [peak] is the running maximum of the [reduce]: it starts from [0] and
    reads a missing, zero or [NaN] process variable as [0].  So [peak] is at
    least [0] and at least every process variable, and it is [0] or the
    process variable of some sample; it is the maximum process variable
    only when some sample reaches [0] or more.  The result is always a
    number.  When no process variable exceeds the setpoint and the setpoint
    is a finite number at least [0], the result is at most [0]. *)
Theorem overshoot_spec :
  forall (data : list Sample) (name : string) (setpoint : float),
    overshoot data name setpoint = (peak data name - setpoint)%float
    /\ (0 <=? peak data name)%float = true
    /\ (forall point, point ∈ data ->
          (Js.or_zero (pv_of name point) <=? peak data name)%float = true)
    /\ (peak data name = 0%float
        \/ exists point, point ∈ data /\ pv_of name point = Some (peak data name))
    /\ (is_finite setpoint = true ->
        (0 <=? setpoint)%float = true ->
        (forall point v, point ∈ data -> pv_of name point = Some v ->
           (setpoint <? v)%float = false) ->
        (overshoot data name setpoint <=? 0)%float = true).
Proof.
  intros data name setpoint.
  destruct (peak_spec data name) as (Hn & H0 & Hub & Hat).
  repeat split; try assumption.
  intros Hfin Hsp Hbelow. unfold overshoot.
  apply sub_nonpos; [exact H0 | | exact Hfin].
  destruct Hat as [-> | (point & Hp & Hv)]; [exact Hsp|].
  apply nltb_leb.
  - apply (leb_not_nan _ _ Hsp).
  - exact Hn.
  - eapply Hbelow; eassumption.
Qed.

(** A rising trajectory that stays below the setpoint [1]. *)
Lemma overshoot_spec_witness :
  (overshoot
     [ {["PID 1" := PEntry (mkEntry 0.5 1 1)]};
       {["PID 1" := PEntry (mkEntry 0.75 0.5 0.5)]} ] "PID 1" 1 <=? 0)%float
  = true.
Proof.
  apply (overshoot_spec _ "PID 1" 1).
  - reflexivity.
  - reflexivity.
  - intros point v Hp Hv.
    apply elem_of_cons in Hp as [-> | Hp];
      [|apply elem_of_cons in Hp as [-> | Hp]; [|inversion Hp]];
      vm_compute in Hv; injection Hv as <-; reflexivity.
Defined.

(** The smallest case: for a trajectory of negative process variables
    below a negative setpoint the result is [0 - setpoint], a positive
    number, while the maximum process variable minus the setpoint is
    negative. *)
Lemma overshoot_negative_trajectory :
  let data : list Sample :=
    [ {["PID 1" := PEntry (mkEntry (-1.5) (-1) (-1))]};
      {["PID 1" := PEntry (mkEntry (-2) 0.5 0.5)]} ] in
  (pv_of "PID 1" <$> data) = [Some (-1.5)%float; Some (-2)%float]
  /\ (-1.5 <=? -1)%float = true /\ (-2 <=? -1)%float = true
  /\ (Js.math_max (-1.5) (-2) - (-1))%float = (-0.5)%float
  /\ overshoot data "PID 1" (-1) = 1%float
  /\ (overshoot data "PID 1" (-1) <=? 0)%float = false.
Proof. vm_compute. repeat split; reflexivity. Qed.

(** C8, where the code departs from it.  Line 449 computes the maximum
    process variable with a [reduce] seeded with [0], so a trajectory that
    stays below zero has its peak reported as [0].  The page's own controls
    reach such data: the custom setpoint [-1], 200 frames, the custom
    setpoint [-0.5], 150 frames.  The hundred samples then kept all have a
    process variable of [PID 1] below the setpoint [-0.5], the largest
    being [-0.50000006844573941]; the maximum minus the setpoint is
    negative, and the page shows an overshoot of [0.5]. *)
Theorem overshoot_positive_below_negative_setpoint :
  forall toFixed : Z -> float -> string,
    match
      Handlers.AdvancedPIDVisualizer.run toFixed
        ([Handlers.AdvancedPIDVisualizer.ApplyCustomSetpoint (-1)]
         ++ replicate 200 Handlers.AdvancedPIDVisualizer.Tick
         ++ [Handlers.AdvancedPIDVisualizer.ApplyCustomSetpoint (-0.5)]
         ++ replicate 150 Handlers.AdvancedPIDVisualizer.Tick)
        init
    with
    | Normal st =>
        let pvs :=
          (fun point => Js.to_number (pv_of "PID 1" point)) <$> data st in
        setpoint st = (-0.5)%float
        /\ length (data st) = 100%nat
        /\ forallb (fun v => (v <? setpoint st)%float) pvs = true
        /\ foldl Js.math_max neg_infinity pvs = (-0.50000006844573941)%float
        /\ (foldl Js.math_max neg_infinity pvs - setpoint st <? 0)%float = true
        /\ peak (data st) "PID 1" = 0%float
        /\ overshoot (data st) "PID 1" (setpoint st) = 0.5%float
        /\ (overshoot (data st) "PID 1" (setpoint st) <=? 0)%float = false
    | Throw _ => False
    end.
Proof. intros toFixed. vm_compute. repeat split; reflexivity. Qed.

Lemma findIndex_from_spec {A} (p : A -> Z -> list A -> bool) arr rest :
  forall i : Z,
    let r := Js.findIndex_from p arr i rest in
    (r = (-1)%Z
     /\ forall (k : nat) x, rest !! k = Some x -> p x (i + Z.of_nat k)%Z arr = false)
    \/ (exists (k : nat) x,
          r = (i + Z.of_nat k)%Z /\ rest !! k = Some x /\ p x r arr = true
          /\ forall (j : nat) y, (j < k)%nat -> rest !! j = Some y ->
               p y (i + Z.of_nat j)%Z arr = false).
Proof.
  induction rest as [|x rest IH]; intros i; simpl.
  - left. split; [reflexivity|]. intros k y Hk. inversion Hk.
  - destruct (p x i arr) eqn:Hp.
    + right. exists 0%nat, x. rewrite Z.add_0_r.
      repeat split; [exact Hp|]. intros j y Hj. lia.
    + destruct (IH (i + 1)%Z) as [[Hr Hall] | (k & y & Hr & Hk & Hpy & Hlt)].
      * left. split; [exact Hr|]. intros [|k] y Hk.
        -- injection Hk as <-. rewrite Z.add_0_r. exact Hp.
        -- replace (i + Z.of_nat (S k))%Z with (i + 1 + Z.of_nat k)%Z by lia.
           apply Hall. exact Hk.
      * right. exists (S k), y. repeat split.
        -- rewrite Hr. lia.
        -- exact Hk.
        -- exact Hpy.
        -- intros [|j] z Hj Hz.
           ++ injection Hz as <-. rewrite Z.add_0_r. exact Hp.
           ++ replace (i + Z.of_nat (S j))%Z with (i + 1 + Z.of_nat j)%Z by lia.
              apply (Hlt j z); [lia | exact Hz].
Qed.

Lemma slice_nonneg {A} (k : nat) (l : list A) :
  (k <= length l)%nat -> Js.slice (Z.of_nat k) l = drop k l.
Proof.
  intros H. unfold Js.slice.
  destruct (Z.ltb_spec (Z.of_nat k) 0); [lia|].
  f_equal. lia.
Qed.

Lemma settled_callback name sp (data : list Sample) (k : nat) point :
  data !! k = Some point ->
  ((0 <? Z.of_nat k)%Z && within_band name sp point
   && forallb (within_band name sp) (Js.slice (Z.of_nat k) data))
  = ((0 <? k)%nat && forallb (within_band name sp) (drop k data)).
Proof.
  intros Hk. pose proof (lookup_lt_Some _ _ _ Hk) as Hlt.
  rewrite slice_nonneg by lia.
  rewrite (drop_S _ _ _ Hk). simpl.
  destruct k; simpl; [reflexivity|].
  destruct (within_band name sp point); reflexivity.
Qed.

(** What [findIndex] computes for [settlingTime]: the first index [k > 0]
    from which every sample passes the band test of the code, or [-1]. *)
Lemma settlingIndex_spec data name sp :
  let r := settlingIndex data name sp in
  let settled_from (k : nat) :=
    forallb (within_band name sp) (drop k data) in
  (r = (-1)%Z
   /\ forall k : nat, (0 < k < length data)%nat -> settled_from k = false)
  \/ ((0 < r < Z.of_nat (length data))%Z
      /\ settled_from (Z.to_nat r) = true
      /\ forall k : nat, (0 < k < Z.to_nat r)%nat -> settled_from k = false).
Proof.
  cbv zeta. unfold settlingIndex, Js.findIndex.
  destruct (findIndex_from_spec
              (fun point i arr =>
                 (0 <? i)%Z && within_band name sp point
                 && forallb (within_band name sp) (Js.slice i arr))
              data data 0%Z)
    as [[Hr Hall] | (k & x & Hr & Hk & Hp & Hlt)].
  - left. split; [exact Hr|]. intros k [Hk0 Hk].
    destruct (lookup_lt_is_Some_2 data k Hk) as [point Hpt].
    specialize (Hall k point Hpt). rewrite Z.add_0_l in Hall.
    rewrite (settled_callback _ _ _ _ _ Hpt) in Hall.
    destruct k; [lia|]. exact Hall.
  - right. rewrite Z.add_0_l in Hr. rewrite Hr in *. clear Hr.
    rewrite (settled_callback _ _ _ _ _ Hk) in Hp.
    apply andb_true_iff in Hp as [Hk0 Hs]. apply Nat.ltb_lt in Hk0.
    pose proof (lookup_lt_Some _ _ _ Hk) as Hlen.
    rewrite Nat2Z.id. repeat split; try lia; [exact Hs|].
    intros j [Hj0 Hj].
    destruct (lookup_lt_is_Some_2 data j ltac:(lia)) as [point Hpt].
    specialize (Hlt j point Hj Hpt). rewrite Z.add_0_l in Hlt.
    rewrite (settled_callback _ _ _ _ _ Hpt) in Hlt.
    destruct j; [lia|]. exact Hlt.
Qed.

Lemma settlingTime_not_found data name setpoint :
  settlingIndex data name setpoint = (-1)%Z ->
  settlingTime data name setpoint = (-0.1)%float.
Proof. unfold settlingTime. intros ->. reflexivity. Qed.

(** C7, where the code departs from it.  [findIndex] answers [-1] when no
    index qualifies and the code multiplies that by [0.1]: after three
    ticks towards the setpoint [1] the page shows a settling time of
    [-0.1].  The band is [0.05 * setpoint] without an absolute value: the
    run towards [1] settles at index [28], time [2.8], and its mirror image
    towards [-1] is never found settled although from index [28] on every
    sample is within [0.05 * |setpoint|] of the setpoint. *)
Theorem settlingTime_negative_when_unsettled :
  forall toFixed : Z -> float -> string,
    match ticks toFixed 3 (mkState (controllers init) 1 [] 0 0) with
    | Normal st =>
        pv_of "PID 1" <$> data st
          = [Some 0.1%float; Some 0.19%float; Some 0.271%float]
        /\ settlingIndex (data st) "PID 1" 1 = (-1)%Z
        /\ settlingTime (data st) "PID 1" 1 = (-0.1)%float
        /\ (settlingTime (data st) "PID 1" 1 <? 0)%float = true
    | Throw _ => False
    end
    /\ match ticks toFixed 100 (mkState (controllers init) 1 [] 0 0) with
       | Normal st =>
           settlingIndex (data st) "PID 1" 1 = 28%Z
           /\ settlingTime (data st) "PID 1" 1 = 2.8000000000000003%float
       | Throw _ => False
       end
    /\ match ticks toFixed 100 (mkState (controllers init) (-1) [] 0 0) with
       | Normal st =>
           forallb
             (fun point =>
                (abs (Js.to_number (pv_of "PID 1" point) - -1)
                 <? 0.05 * abs (-1))%float)
             (drop 28 (data st)) = true
           /\ settlingIndex (data st) "PID 1" (-1) = (-1)%Z
           /\ settlingTime (data st) "PID 1" (-1) = (-0.1)%float
       | Throw _ => False
       end.
Proof. intros toFixed. vm_compute. repeat split; reflexivity. Qed.

End AnalysisSpec.

(** ** Controller state across modes *)

Module StateSpec.

Import pidController Page AdvancedPIDVisualizer.

Lemma spread_typeUpdate o value :
  fields (spread o (typeUpdate value))
  = mkPIDController (name (fields o)) (kp (fields o)) (ki (fields o))
      (kd (fields o)) value (integral (fields o)) (previousError (fields o)).
Proof. reflexivity. Qed.

Lemma updateController_fmap {B} (f : Controller -> B) index updates cs :
  (forall o, f (spread o updates) = f o) ->
  f <$> updateController index updates cs = f <$> cs.
Proof.
  intros Hf. unfold updateController.
  destruct (cs !! index) as [o|] eqn:E; [|reflexivity].
  rewrite list_fmap_insert, Hf. apply list_insert_id.
  rewrite list_lookup_fmap, E. reflexivity.
Qed.

(** C9. [update(error, dt)] changes the controller in the same way in the
    four modes: [integral] becomes [integral + error*dt], [previousError]
    becomes [error], and [name], [kp], [ki], [kd] and [type] are kept.  The
    two state fields after the call do not depend on the mode, and changing
    the mode of a controller of the page through [updateController] keeps
    the [integral] and [previousError] of every controller. *)
Theorem update_state_mode_independent :
  (forall (c : PIDController) (error dt : float),
     fst (update c error dt)
     = mkPIDController (name c) (kp c) (ki c) (kd c) (type c)
         (integral c + error * dt)%float error)
  /\ (forall (n : string) (kp ki kd i pe : float) (m m' : ControllerType)
        (error dt : float),
        let c1 := fst (update (mkPIDController n kp ki kd m i pe) error dt) in
        let c2 := fst (update (mkPIDController n kp ki kd m' i pe) error dt) in
        integral c1 = integral c2 /\ previousError c1 = previousError c2)
  /\ (forall (index : nat) (value : ControllerType) (cs : list Controller),
        let cs' := updateController index (typeUpdate value) cs in
        (fun o => integral (fields o)) <$> cs'
          = (fun o => integral (fields o)) <$> cs
        /\ (fun o => previousError (fields o)) <$> cs'
          = (fun o => previousError (fields o)) <$> cs
        /\ (fun o => type (fields o)) <$> (cs' !! index)
          = (fun _ => value) <$> (cs !! index)).
Proof.
  split; [|split].
  - intros c error dt. reflexivity.
  - intros. split; reflexivity.
  - intros index value cs. cbv zeta. split; [|split].
    + apply updateController_fmap. intros o. reflexivity.
    + apply updateController_fmap. intros o. reflexivity.
    + unfold updateController.
      destruct (cs !! index) as [o|] eqn:E.
      * rewrite list_lookup_insert_eq by (eapply lookup_lt_Some; exact E).
        reflexivity.
      * rewrite E. reflexivity.
Qed.

(** The object the spread leaves in the array has the fields only: the
    tick that follows a change of mode or gains finds no [update] on it. *)
Lemma tick_after_updateController_throws (toFixed : Z -> float -> string) :
  updateSimulation toFixed
    (mkState (updateController 0 (typeUpdate PI) (controllers init)) 0 [] 0 0)
  = Throw TypeError.
Proof. reflexivity. Qed.

End StateSpec.

(** * Further properties *)

(** ** More facts about binary64 arithmetic *)

Module MoreFloatFacts.

Import Js FloatFacts SignClass.

(** *** NaN is absorbing *)

Lemma add_nan_l x y : is_nan x = true -> is_nan (x + y) = true.
Proof.
  rewrite !is_nan_spec, add_spec. unfold SF64add.
  destruct (Prim2SF x); try discriminate. reflexivity.
Qed.

Lemma add_nan_r x y : is_nan y = true -> is_nan (x + y) = true.
Proof.
  rewrite !is_nan_spec, add_spec. unfold SF64add.
  destruct (Prim2SF y); try discriminate. destruct (Prim2SF x); reflexivity.
Qed.

Lemma mul_nan_l x y : is_nan x = true -> is_nan (x * y) = true.
Proof.
  rewrite !is_nan_spec, mul_spec. unfold SF64mul.
  destruct (Prim2SF x); try discriminate. reflexivity.
Qed.

Lemma mul_nan_r x y : is_nan y = true -> is_nan (x * y) = true.
Proof.
  rewrite !is_nan_spec, mul_spec. unfold SF64mul.
  destruct (Prim2SF y); try discriminate. destruct (Prim2SF x); reflexivity.
Qed.

Lemma sub_nan_l x y : is_nan x = true -> is_nan (x - y) = true.
Proof.
  rewrite !is_nan_spec, sub_spec. unfold SF64sub.
  destruct (Prim2SF x); try discriminate. reflexivity.
Qed.

Lemma sub_nan_r x y : is_nan y = true -> is_nan (x - y) = true.
Proof.
  rewrite !is_nan_spec, sub_spec. unfold SF64sub.
  destruct (Prim2SF y); try discriminate. destruct (Prim2SF x); reflexivity.
Qed.

Lemma div_nan_l x y : is_nan x = true -> is_nan (x / y) = true.
Proof.
  rewrite !is_nan_spec, div_spec. unfold SF64div.
  destruct (Prim2SF x); try discriminate. reflexivity.
Qed.

(** *** Zeros *)

Lemma add_zero_zero x y :
  is_zero x = true -> is_zero y = true -> is_zero (x + y) = true.
Proof.
  rewrite !is_zero_spec, add_spec. unfold SF64add.
  destruct (Prim2SF x) as [s| | |]; try discriminate.
  destruct (Prim2SF y) as [s'| | |]; try discriminate.
  destruct s, s'; reflexivity.
Qed.

Lemma sub_zero_zero x y :
  is_zero x = true -> is_zero y = true -> is_zero (x - y) = true.
Proof.
  rewrite !is_zero_spec, sub_spec. unfold SF64sub.
  destruct (Prim2SF x) as [s| | |]; try discriminate.
  destruct (Prim2SF y) as [s'| | |]; try discriminate.
  destruct s, s'; reflexivity.
Qed.

Lemma mul_zero_finite x y :
  is_zero x = true -> is_finite y = true -> is_zero (x * y) = true.
Proof.
  rewrite is_finite_spec, !is_zero_spec, mul_spec. unfold SF64mul.
  destruct (Prim2SF x); try discriminate.
  destruct (Prim2SF y); try discriminate; reflexivity.
Qed.

Lemma div_zero_finite x y :
  is_zero x = true -> is_finite y = true -> is_zero y = false ->
  is_zero (x / y) = true.
Proof.
  rewrite is_finite_spec, !is_zero_spec, div_spec. unfold SF64div.
  destruct (Prim2SF x); try discriminate.
  destruct (Prim2SF y); try discriminate; reflexivity.
Qed.

Lemma is_zero_finite x : is_zero x = true -> is_finite x = true.
Proof.
  rewrite is_finite_spec, is_zero_spec. destruct (Prim2SF x); try discriminate; reflexivity.
Qed.

(** *** Signs *)

Lemma signed_spec_lt s x :
  signed s x = true ->
  if s then (0 <? x)%float = false else (x <? 0)%float = false.
Proof.
  unfold signed. rewrite !ltb_spec. change (Prim2SF 0) with (S754_zero false).
  unfold SFltb.
  destruct (Prim2SF x) as [[]|[]| |[] m e]; destruct s; simpl;
    try discriminate; reflexivity.
Qed.

Lemma positive_signed x : (0 <? x)%float = true -> signed false x = true.
Proof.
  unfold signed. rewrite ltb_spec. change (Prim2SF 0) with (S754_zero false).
  unfold SFltb.
  destruct (Prim2SF x) as [s'|s'| |s' m e]; simpl; try discriminate;
    destruct s'; simpl; try discriminate; reflexivity.
Qed.

Lemma negative_signed x : (x <? 0)%float = true -> signed true x = true.
Proof.
  unfold signed. rewrite ltb_spec. change (Prim2SF 0) with (S754_zero false).
  unfold SFltb.
  destruct (Prim2SF x) as [s'|s'| |s' m e]; simpl; try discriminate;
    destruct s'; simpl; try discriminate; reflexivity.
Qed.

Lemma binary_round_aux_signed sx mx ex lx :
  (0 <= mx)%Z ->
  SFsigned sx (binary_round_aux prec emax sx mx ex lx) = true.
Proof.
  intros H. pose proof (binary_round_aux_sign sx mx ex lx H) as Hs.
  destruct (binary_round_aux prec emax sx mx ex lx); simpl;
    try reflexivity; subst; apply eqb_reflx.
Qed.

Lemma SFmul_signed s1 s2 x y :
  SFsigned s1 x = true -> SFsigned s2 y = true ->
  SFsigned (xorb s1 s2) (SF64mul x y) = true.
Proof.
  unfold SF64mul, SFmul.
  destruct x as [sx|sx| |sx mx ex], y as [sy|sy| |sy my ey]; simpl;
    try reflexivity; intros Hx Hy;
    try (apply eqb_prop in Hx; apply eqb_prop in Hy; subst;
         first [ apply eqb_reflx | apply binary_round_aux_signed; lia ]).
Qed.

Lemma div_core_nonneg m1 e1 m2 e2 :
  (0 <= fst (fst (SFdiv_core_binary prec emax (Zpos m1) e1 (Zpos m2) e2)))%Z.
Proof.
  unfold SFdiv_core_binary.
  set (s := (e1 - e2 - _)%Z).
  set (m' := match s with Zpos _ => Z.shiftl (Zpos m1) s | Z0 => Zpos m1 | Zneg _ => 0%Z end).
  assert (Hm : (0 <= m')%Z).
  { unfold m'. destruct s; try lia. apply Z.shiftl_nonneg. lia. }
  pose proof (Z_div_mod m' (Zpos m2) ltac:(lia)) as Hd.
  destruct (Z.div_eucl m' (Zpos m2)) as [q r]. simpl.
  destruct Hd as [Hd Hr]. nia.
Qed.

Lemma SFdiv_signed s1 s2 x y :
  SFsigned s1 x = true -> SFsigned s2 y = true ->
  SFsigned (xorb s1 s2) (SF64div x y) = true.
Proof.
  unfold SF64div, SFdiv.
  destruct x as [sx|sx| |sx mx ex], y as [sy|sy| |sy my ey]; simpl;
    try reflexivity; intros Hx Hy;
    try (apply eqb_prop in Hx; apply eqb_prop in Hy; subst; apply eqb_reflx).
  apply eqb_prop in Hx; apply eqb_prop in Hy; subst.
  pose proof (div_core_nonneg mx ex my ey) as Hq.
  destruct (SFdiv_core_binary prec emax (Zpos mx) ex (Zpos my) ey) as [[mz ez] lz].
  apply binary_round_aux_signed. exact Hq.
Qed.

Lemma mul_signed s1 s2 x y :
  signed s1 x = true -> signed s2 y = true -> signed (xorb s1 s2) (x * y) = true.
Proof. unfold signed. rewrite mul_spec. apply SFmul_signed. Qed.

Lemma div_signed s1 s2 x y :
  signed s1 x = true -> signed s2 y = true -> signed (xorb s1 s2) (x / y) = true.
Proof. unfold signed. rewrite div_spec. apply SFdiv_signed. Qed.

(** *** Operations that keep a number a number *)

Lemma mul_number x c :
  is_nan x = false -> is_finite c = true -> is_zero c = false ->
  is_nan (x * c) = false.
Proof.
  rewrite !is_nan_spec, is_finite_spec, is_zero_spec, mul_spec. unfold SF64mul, SFmul.
  destruct (Prim2SF x) as [sx|sx| |sx mx ex]; try discriminate;
    destruct (Prim2SF c) as [sc|sc| |sc mc ec]; try discriminate; intros _ _ _;
    try reflexivity.
  pose proof (binary_round_aux_sign (xorb sx sc) (Zpos (mx * mc)) (ex + ec) loc_Exact
                ltac:(lia)) as H.
  destruct (binary_round_aux _ _ _ _ _ _); try reflexivity. contradiction.
Qed.

Lemma sub_number x y :
  is_nan x = false -> is_finite y = true -> is_nan (x - y) = false.
Proof.
  rewrite !is_nan_spec, is_finite_spec, sub_spec. unfold SF64sub, SFsub.
  destruct (Prim2SF x) as [sx|sx| |sx mx ex]; try discriminate;
    destruct (Prim2SF y) as [sy|sy| |sy my ey]; try discriminate; intros _ _;
    try reflexivity; try (destruct sx, sy; reflexivity).
  unfold binary_normalize.
  destruct (_ - _)%Z as [|p|p]; try reflexivity.
  - pose proof (binary_round_sign false p (Z.min ex ey)) as H.
    destruct (binary_round _ _ _ _ _); try reflexivity. contradiction.
  - pose proof (binary_round_sign true p (Z.min ex ey)) as H.
    destruct (binary_round _ _ _ _ _); try reflexivity. contradiction.
Qed.

Lemma random_setpoint_number r :
  is_nan r = false -> is_nan (r * 2 - 1) = false.
Proof.
  intros H. apply sub_number; [|reflexivity].
  apply mul_number; [exact H | reflexivity | reflexivity].
Qed.

Lemma random_disturbance_number r :
  is_nan r = false -> is_nan (r * 0.5 - 0.25) = false.
Proof.
  intros H. apply sub_number; [|reflexivity].
  apply mul_number; [exact H | reflexivity | reflexivity].
Qed.

(** *** A bound that is not positive is never exceeded from below *)
Lemma abs_ltb_nonpositive x y :
  (0 <? y)%float = false -> (abs x <? y)%float = false.
Proof.
  rewrite !ltb_spec, abs_spec. change (Prim2SF 0) with (S754_zero false).
  unfold SFltb.
  destruct (Prim2SF x) as [sx|sx| |sx mx ex], (Prim2SF y) as [sy|sy| |sy my ey];
    simpl; try reflexivity; try discriminate;
    try (destruct sy; simpl; try discriminate; reflexivity).
Qed.

Lemma not_positive_band sp :
  (0 <? sp)%float = false -> (0 <? 0.05 * sp)%float = false.
Proof.
  intros H.
  assert (Hs : signed true sp = true \/ is_zero sp = true).
  { revert H. unfold signed. rewrite ltb_spec, is_zero_spec.
    change (Prim2SF 0) with (S754_zero false). unfold SFltb.
    destruct (Prim2SF sp) as [[]|[]| |[] m e]; simpl; intros H;
      try discriminate; first [left; reflexivity | right; reflexivity]. }
  destruct Hs as [Hs | Hz].
  - exact (signed_spec_lt true _ (mul_signed false true 0.05 sp eq_refl Hs)).
  - pose proof (mul_finite_zero 0.05 sp eq_refl Hz) as Hz'.
    revert Hz'. rewrite is_zero_spec, ltb_spec.
    change (Prim2SF 0) with (S754_zero false). unfold SFltb.
    destruct (Prim2SF (0.05 * sp)); simpl; try discriminate. reflexivity.
Qed.

End MoreFloatFacts.

(** ** Sequences of calls, and the signs of the tuned gains *)

Module CallsSpec.

Import Js FloatFacts SignClass MoreFloatFacts pidController Calls.

Lemma updates_cons c error dt rest :
  updates c ((error, dt) :: rest)
  = (fst (updates (fst (update c error dt)) rest),
     snd (update c error dt) :: snd (updates (fst (update c error dt)) rest)).
Proof.
  simpl. destruct (updates _ rest) as [c' outs]. reflexivity.
Qed.

(** X1. After any sequence of calls [update(error, dt)] the integral is the
    sum, taken from left to right, of the products [error*dt] on top of the
    integral the controller started with; [previousError] is the error of
    the last call; name, gains and mode are those the controller started
    with; and there is one output per call. *)
Theorem updates_accumulate :
  forall (c : PIDController) (calls : list (float * float)),
    let c' := fst (updates c calls) in
    integral c'
    = foldl (fun acc call => (acc + fst call * snd call)%float) (integral c) calls
    /\ previousError c' = default (previousError c) (fst <$> last calls)
    /\ name c' = name c /\ kp c' = kp c /\ ki c' = ki c /\ kd c' = kd c
    /\ type c' = type c
    /\ length (snd (updates c calls)) = length calls.
Proof.
  intros c calls. revert c.
  induction calls as [|[error dt] rest IH]; intros c.
  - cbn. repeat split; reflexivity.
  - cbv zeta. rewrite updates_cons. cbn [fst snd length foldl].
    destruct (IH (fst (update c error dt))) as (Hi & Hp & Hn & Hkp & Hki & Hkd & Ht & Hl).
    cbv zeta in *. rewrite Hi, Hp, Hn, Hkp, Hki, Hkd, Ht, Hl.
    repeat split.
    destruct rest as [|call rest]; [reflexivity|].
    rewrite !last_cons. destruct (last rest); reflexivity.
Qed.

Lemma update_nan_error c error dt :
  is_nan error = true ->
  is_nan (snd (update c error dt)) = true
  /\ is_nan (integral (fst (update c error dt))) = true.
Proof.
  intros He. destruct c as [n p i d t s pe]. split.
  - assert (Hp : is_nan (p * error) = true) by (apply mul_nan_r, He).
    destruct t; cbn.
    + exact Hp.
    + apply add_nan_l, Hp.
    + apply add_nan_l, Hp.
    + apply add_nan_l, add_nan_l, Hp.
  - cbn. apply add_nan_r, mul_nan_l, He.
Qed.

Lemma update_nan_integral c error dt :
  is_nan (integral c) = true ->
  is_nan (integral (fst (update c error dt))) = true
  /\ (type c = PI \/ type c = PID -> is_nan (snd (update c error dt)) = true).
Proof.
  intros Hi. destruct c as [n p i d t s pe]. cbn in *.
  assert (Hi' : is_nan (s + error * dt) = true) by (apply add_nan_l, Hi).
  split; [exact Hi'|].
  intros [-> | ->]; cbn.
  - apply add_nan_r, mul_nan_r, Hi'.
  - apply add_nan_l, add_nan_r, mul_nan_r, Hi'.
Qed.

(** X2. A [NaN] does not leave a controller.  A call with a [NaN] error
    returns [NaN] in every mode and stores [NaN] in the integral; and once
    the integral is [NaN] it stays [NaN] through every later call, with
    every output of modes PI and PID being [NaN]. *)
Theorem update_nan_absorbing :
  (forall (c : PIDController) (error dt : float),
     is_nan error = true ->
     is_nan (snd (update c error dt)) = true
     /\ is_nan (integral (fst (update c error dt))) = true)
  /\ (forall (c : PIDController) (calls : list (float * float)),
        is_nan (integral c) = true ->
        is_nan (integral (fst (updates c calls))) = true
        /\ (type c = PI \/ type c = PID ->
            Forall (fun output => is_nan output = true) (snd (updates c calls)))).
Proof.
  split; [exact update_nan_error|].
  intros c calls. revert c. induction calls as [|[error dt] rest IH]; intros c Hi.
  - split; [exact Hi | constructor].
  - rewrite updates_cons. cbn [fst snd].
    destruct (update_nan_integral c error dt Hi) as [Hi' Ho].
    destruct (IH _ Hi') as [Hr Hos].
    split; [exact Hr|]. intros Ht. constructor; [apply Ho, Ht|].
    apply Hos. destruct c; cbn in *. exact Ht.
Qed.

Lemma update_nan_absorbing_witness :
  Forall (fun output => is_nan output = true)
    (snd (updates (mkPIDController "c" 1 0 0 PID nan 0) [(1, 0.1); (0, 0.1)]%float)).
Proof.
  apply (proj2 update_nan_absorbing); [reflexivity | right; reflexivity].
Defined.

Lemma update_rest c error dt :
  atRest c ->
  is_zero error = true -> is_finite dt = true -> is_zero dt = false ->
  is_zero (snd (update c error dt)) = true /\ atRest (fst (update c error dt)).
Proof.
  intros (Hi & Hpe & Hkp & Hki & Hkd) He Hdt Hnz.
  destruct c as [n p i d t s pe]. cbn in *.
  assert (Hp : is_zero (p * error) = true) by (apply mul_finite_zero; assumption).
  assert (Hs : is_zero (s + error * dt) = true)
    by (apply add_zero_zero; [assumption | apply mul_zero_finite; assumption]).
  assert (Hi' : is_zero (i * (s + error * dt)) = true)
    by (apply mul_finite_zero; assumption).
  assert (Hd : is_zero (d * ((error - pe) / dt)) = true).
  { apply mul_finite_zero; [assumption|].
    apply div_zero_finite; [apply sub_zero_zero|..]; assumption. }
  split.
  - destruct t; cbn; repeat apply add_zero_zero; assumption.
  - unfold atRest. cbn. repeat split; assumption.
Qed.

(** X3. A controller at rest stays at rest under zero errors: with a zero
    integral and previous error and gains that are numbers, any sequence of
    calls whose errors are zeros and whose time steps are numbers other
    than zero returns only zeros, in every mode, and leaves the integral
    and the previous error zeros. *)
Theorem updates_at_rest :
  forall (c : PIDController) (calls : list (float * float)),
    atRest c ->
    Forall (fun call => is_zero (fst call) = true
                        /\ is_finite (snd call) = true
                        /\ is_zero (snd call) = false) calls ->
    atRest (fst (updates c calls))
    /\ Forall (fun output => is_zero output = true) (snd (updates c calls)).
Proof.
  intros c calls. revert c.
  induction calls as [|[error dt] rest IH]; intros c Hc Hcalls.
  - split; [exact Hc | constructor].
  - apply Forall_cons in Hcalls as [(He & Hdt & Hnz) Hrest].
    cbn [fst snd] in He, Hdt, Hnz.
    destruct (update_rest c error dt Hc He Hdt Hnz) as [Ho Hc1].
    destruct (IH _ Hc1 Hrest) as [Hc' Hos].
    rewrite updates_cons. cbn [fst snd].
    split; [exact Hc'|]. constructor; [exact Ho | exact Hos].
Qed.

Lemma updates_at_rest_witness :
  Forall (fun output => is_zero output = true)
    (snd (updates (new "PID 1" 1 0.5 0.75 PID) [(0, 0.1); (-0, 0.25)]%float)).
Proof.
  apply (updates_at_rest (new "PID 1" 1 0.5 0.75 PID) [(0, 0.1); (-0, 0.25)]%float).
  - repeat split; reflexivity.
  - repeat constructor.
Defined.

(** X4. For a process gain and time constant above zero, [autoTune] with a
    dead time above zero returns no negative gain; with a dead time below
    zero it returns a proportional gain that is not positive, while the
    integral and derivative gains are still not negative: the dead time
    cancels in their signs. *)
Theorem autoTune_gain_signs :
  forall processGain timeConstant deadTime : float,
    (0 <? processGain)%float = true ->
    (0 <? timeConstant)%float = true ->
    let g := autoTune (mkSystemCharacteristics processGain timeConstant deadTime) in
    ((0 <? deadTime)%float = true ->
     (g_kp g <? 0)%float = false /\ (g_ki g <? 0)%float = false
     /\ (g_kd g <? 0)%float = false)
    /\ ((deadTime <? 0)%float = true ->
        (0 <? g_kp g)%float = false /\ (g_ki g <? 0)%float = false
        /\ (g_kd g <? 0)%float = false).
Proof.
  intros pg tc dt Hpg Htc. cbv zeta. unfold autoTune. cbn.
  apply positive_signed in Hpg. apply positive_signed in Htc.
  assert (Hc : forall c, (0 <? c)%float = true -> forall s x,
             signed s x = true -> signed s (c * x) = true).
  { intros c Hcpos s x Hx.
    exact (mul_signed false s c x (positive_signed c Hcpos) Hx). }
  split; intros Hdt.
  - apply positive_signed in Hdt.
    pose proof (mul_signed false false _ _ (Hc 0.6%float eq_refl _ _ Hpg)
                  (div_signed false false _ _ Htc Hdt)) as Hku.
    pose proof (Hc 2%float eq_refl _ _ Hdt) as Htu.
    repeat split.
    + exact (signed_spec_lt false _ (Hc 0.6%float eq_refl _ _ Hku)).
    + exact (signed_spec_lt false _
               (div_signed false false _ _ (Hc 1.2%float eq_refl _ _ Hku) Htu)).
    + exact (signed_spec_lt false _
               (mul_signed false false _ _ (Hc 0.075%float eq_refl _ _ Hku) Htu)).
  - apply negative_signed in Hdt.
    pose proof (mul_signed false true _ _ (Hc 0.6%float eq_refl _ _ Hpg)
                  (div_signed false true _ _ Htc Hdt)) as Hku.
    pose proof (Hc 2%float eq_refl _ _ Hdt) as Htu.
    repeat split.
    + exact (signed_spec_lt true _ (Hc 0.6%float eq_refl _ _ Hku)).
    + exact (signed_spec_lt false _
               (div_signed true true _ _ (Hc 1.2%float eq_refl _ _ Hku) Htu)).
    + exact (signed_spec_lt false _
               (mul_signed true true _ _ (Hc 0.075%float eq_refl _ _ Hku) Htu)).
Qed.

Lemma autoTune_gain_signs_witness :
  (0 <? g_kp (autoTune (mkSystemCharacteristics 1 1 (-0.1))))%float = false.
Proof.
  exact (proj1 (proj2 (autoTune_gain_signs 1 1 (-0.1) eq_refl eq_refl) eq_refl)).
Defined.

End CallsSpec.

(** ** Neighbours in the bounded history *)

Module HistoryFacts.

Import SliceFacts.

(** Neighbours in a list that grows at the end and is cut at the front. *)
Lemma adjacent_snoc {A} (R : A -> A -> Prop) (h : list A) (x : A) :
  (forall k a b, h !! k = Some a -> h !! S k = Some b -> R a b) ->
  (forall a, last h = Some a -> R a x) ->
  forall k a b, (h ++ [x]) !! k = Some a -> (h ++ [x]) !! S k = Some b -> R a b.
Proof.
  intros Hh Hx k a b Ha Hb.
  destruct (decide (S k < length h)%nat) as [Hlt|Hge].
  - rewrite lookup_app_l in Ha by lia. rewrite lookup_app_l in Hb by lia.
    eapply Hh; eassumption.
  - pose proof (lookup_lt_Some _ _ _ Hb) as Hlen.
    rewrite length_app in Hlen. simpl in Hlen.
    assert (S k = length h) as Hk by lia.
    rewrite lookup_app_l in Ha by lia.
    rewrite lookup_app_r in Hb by lia.
    replace (S k - length h)%nat with 0%nat in Hb by lia.
    injection Hb as <-. apply Hx.
    rewrite last_lookup. rewrite <- Hk. simpl. exact Ha.
Qed.

Lemma adjacent_drop {A} (R : A -> A -> Prop) (l : list A) (n : nat) :
  (forall k a b, l !! k = Some a -> l !! S k = Some b -> R a b) ->
  forall k a b, drop n l !! k = Some a -> drop n l !! S k = Some b -> R a b.
Proof.
  intros Hl k a b Ha Hb. rewrite lookup_drop in Ha, Hb.
  apply (Hl (n + k)%nat); [exact Ha|].
  replace (S (n + k)) with (n + S k)%nat by lia. exact Hb.
Qed.

Lemma adjacent_push {A} (R : A -> A -> Prop) (h : list A) (x : A) :
  (forall k a b, h !! k = Some a -> h !! S k = Some b -> R a b) ->
  (forall a, last h = Some a -> R a x) ->
  forall k a b,
    Js.slice (-100) (h ++ [x]) !! k = Some a ->
    Js.slice (-100) (h ++ [x]) !! S k = Some b -> R a b.
Proof.
  intros Hh Hx. rewrite slice_100. apply adjacent_drop, adjacent_snoc; assumption.
Qed.

End HistoryFacts.

(** ** The single-controller page under its handlers *)

Module SimplePageSpec.

Import Js FloatFacts MoreFloatFacts Page SliceFacts HistoryFacts.
Import Page.PIDVisualizer Handlers.PIDVisualizer.

Section WithToFixed.

Variable toFixed : Z -> float -> string.

Lemma newPoint_follows st a :
  last (s_data st) = Some a -> follows a (newPoint toFixed st).
Proof.
  intros Hl. unfold follows, newPoint, lastProcessVariable, lastIntegral.
  rewrite Hl. simpl. repeat split.
Qed.

Lemma simple_handle_data st ev :
  s_data (handle toFixed st ev) = s_data st
  \/ s_data (handle toFixed st ev)
     = Js.slice (-100) (s_data st ++ [newPoint toFixed st]).
Proof.
  destruct ev; simpl; try (left; reflexivity).
  - right. reflexivity.
  - left. unfold applyCustomSetpoint. destruct (is_nan _); reflexivity.
Qed.

Lemma simple_handle_chained st ev :
  chained (s_data st) -> chained (s_data (handle toFixed st ev)).
Proof.
  intros H. destruct (simple_handle_data st ev) as [-> | ->]; [exact H|].
  unfold chained. apply adjacent_push; [exact H|].
  apply newPoint_follows.
Qed.

(** X9. On the single-controller page, whatever the sequence of frames,
    slider moves and button clicks, every point of [data] was computed from
    the point before it: its error is its setpoint minus the earlier process
    variable, its integral is the earlier integral plus [error*0.1], and its
    process variable is the earlier one plus [output*0.1] plus its own
    disturbance.  Cutting the array to a hundred points does not break the
    chain. *)
Theorem simple_history_is_chained :
  forall (evs : list Event) (st : State),
    chained (s_data st) -> chained (s_data (run toFixed evs st)).
Proof.
  intros evs. unfold run.
  induction evs as [|ev evs IH]; intros st H; [exact H|].
  simpl. apply IH, simple_handle_chained, H.
Qed.

End WithToFixed.

Lemma simple_history_is_chained_witness :
  chained
    (s_data (run (fun _ _ => "0.0")
               [ChangeSetpoint 0.75; Tick; SetKi 0.5; Tick; ApplyDisturbance 0.5; Tick]
               init)).
Proof.
  apply simple_history_is_chained.
  intros k a b Ha. inversion Ha.
Defined.

Lemma or_zero_is_zero o :
  (forall v, o = Some v -> is_zero v = true) -> Js.or_zero o = 0%float.
Proof.
  intros H. destruct o as [v|]; [|reflexivity]. simpl.
  unfold Js.truthy. rewrite (H v eq_refl), orb_true_r. reflexivity.
Qed.

Section WithToFixed.
Variable toFixed : Z -> float -> string.

Lemma simple_handle_numbers st ev :
  randomIsNumber ev ->
  is_nan (s_setpoint st) = false /\ is_nan (s_disturbance st) = false ->
  is_nan (s_setpoint (handle toFixed st ev)) = false
  /\ is_nan (s_disturbance (handle toFixed st ev)) = false.
Proof.
  intros Hr [Hs Hd]. destruct ev; simpl in *; try (split; assumption).
  - split; [apply random_setpoint_number, Hr | exact Hd].
  - unfold applyCustomSetpoint.
    destruct (is_nan newSetpoint) eqn:E; simpl; split; assumption.
  - split; [exact Hs | apply random_disturbance_number, Hr].
Qed.

Lemma simple_run_numbers evs :
  forall st,
    Forall randomIsNumber evs ->
    is_nan (s_setpoint st) = false -> is_nan (s_disturbance st) = false ->
    is_nan (s_setpoint (run toFixed evs st)) = false
    /\ is_nan (s_disturbance (run toFixed evs st)) = false.
Proof.
  unfold run. induction evs as [|ev evs IH]; intros st Hev Hs Hd.
  - split; assumption.
  - apply Forall_cons in Hev as [Hr Hev]. simpl.
    destruct (simple_handle_numbers st ev Hr (conj Hs Hd)) as [Hs1 Hd1].
    apply IH; assumption.
Qed.

Lemma newPoint_rest st :
  atRest st ->
  let p := newPoint toFixed st in
  is_zero (processVariable p) = true /\ is_zero (integral p) = true
  /\ is_zero (error p) = true /\ is_zero (output p) = true.
Proof.
  intros (Hsp & Hd & Hkp & Hki & Hkd & Hl). cbv zeta.
  assert (Hpv : is_zero (lastProcessVariable (s_data st)) = true).
  { unfold lastProcessVariable. destruct (last (s_data st)) as [p|]; [|reflexivity].
    apply (Hl p eq_refl). }
  assert (Hint : is_zero (lastIntegral (s_data st)) = true).
  { unfold lastIntegral. destruct (last (s_data st)) as [p|]; [|reflexivity].
    apply (Hl p eq_refl). }
  assert (Herr : lastError (s_data st) = 0%float).
  { unfold lastError. apply or_zero_is_zero. intros v Hv.
    destruct (last (s_data st)) as [p|]; [|discriminate].
    injection Hv as <-. apply (Hl p eq_refl). }
  unfold newPoint. cbn [processVariable integral error output].
  set (e := (s_setpoint st - lastProcessVariable (s_data st))%float).
  assert (He : is_zero e = true) by (apply sub_zero_zero; assumption).
  set (i := (lastIntegral (s_data st) + e * 0.1)%float).
  assert (Hi : is_zero i = true)
    by (apply add_zero_zero; [exact Hint | apply mul_zero_finite; [exact He|reflexivity]]).
  assert (Ho : is_zero (pidController (s_kp st) (s_ki st) (s_kd st) e i
                          (lastError (s_data st)) 0.1) = true).
  { unfold pidController. rewrite Herr.
    apply add_zero_zero; [apply add_zero_zero|].
    - apply mul_finite_zero; assumption.
    - apply mul_finite_zero; [exact Hki|].
      apply add_zero_zero; [exact Hi | apply mul_zero_finite; [exact He|reflexivity]].
    - apply div_zero_finite; [|reflexivity|reflexivity].
      apply mul_finite_zero; [exact Hkd|].
      apply sub_zero_zero; [exact He|reflexivity]. }
  repeat split; try assumption.
  apply add_zero_zero; [|exact Hd].
  apply add_zero_zero; [exact Hpv|].
  apply mul_zero_finite; [exact Ho|reflexivity].
Qed.

Lemma updateSimulation_rest st :
  atRest st -> atRest (updateSimulation toFixed st).
Proof.
  intros Hr. pose proof (newPoint_rest st Hr) as (Hpv & Hi & He & _).
  destruct Hr as (Hsp & Hd & Hkp & Hki & Hkd & _).
  unfold atRest. simpl.
  split; [exact Hsp|]. split; [exact Hd|]. split; [exact Hkp|].
  split; [exact Hki|]. split; [exact Hkd|].
  intros p Hp.
  destruct (slice_100_push (s_data st) (newPoint toFixed st)) as (_ & Hl & _).
  cbv zeta in Hl. rewrite Hl in Hp. injection Hp as <-.
  repeat split; assumption.
Qed.

(** X11. The single-controller page at rest stays at rest: with a zero
    setpoint, a zero disturbance, gains that are numbers and a last point,
    if there is one, whose process variable, integral and error are zeros,
    every frame appends a point whose process variable, integral, error and
    output are zeros. *)
Theorem simple_rest_is_kept :
  forall (n : nat) (st : State),
    atRest st ->
    atRest (ticks toFixed n st)
    /\ Forall (fun p =>
                 is_zero (processVariable p) = true /\ is_zero (integral p) = true
                 /\ is_zero (error p) = true /\ is_zero (output p) = true)
         (appended toFixed n st).
Proof.
  induction n as [|n IH]; intros st Hr.
  - split; [exact Hr|constructor].
  - simpl. destruct (IH _ (updateSimulation_rest st Hr)) as [Ht Ha].
    split; [exact Ht|]. constructor; [apply newPoint_rest, Hr | exact Ha].
Qed.

End WithToFixed.

Lemma simple_rest_is_kept_witness :
  atRest (ticks (fun _ _ => "0.0") 120 (mkState 1.5 0.5 0.75 0 [] 0 0)).
Proof.
  apply (simple_rest_is_kept (fun _ _ => "0.0") 120 (mkState 1.5 0.5 0.75 0 [] 0 0)).
  unfold atRest. simpl. repeat split; try reflexivity; discriminate.
Defined.

End SimplePageSpec.

(** ** The multi-controller page under its handlers *)

Module AdvancedPageSpec.

Import Js FloatFacts MoreFloatFacts pidController Calls Page SliceFacts TickSpec.
Import HistoryFacts.
Import Page.AdvancedPIDVisualizer Handlers.AdvancedPIDVisualizer.

Lemma reduce_plain prev sp d cs acc :
  Exists (fun o => proto o = PlainObject) cs ->
  reduce prev sp d cs acc = Throw TypeError.
Proof.
  intros H. revert acc. induction cs as [|o cs IH]; intros acc.
  - inversion H.
  - simpl. unfold simulate, callUpdate.
    destruct (proto o) eqn:Ho.
    + destruct (update (fields o) _ _) as [c' out].
      rewrite IH; [reflexivity|].
      apply Exists_cons in H as [H|H]; [congruence | exact H].
    + reflexivity.
Qed.

Lemma updateController_plain index updates cs :
  (index < length cs)%nat ->
  Exists (fun o => proto o = PlainObject) (updateController index updates cs).
Proof.
  intros Hlt. unfold updateController.
  destruct (lookup_lt_is_Some_2 cs index Hlt) as [o Ho]. rewrite Ho.
  apply Exists_exists. exists (spread o updates). split; [|reflexivity].
  apply list_elem_of_lookup. exists index.
  apply list_lookup_insert_eq. exact Hlt.
Qed.

Lemma updateController_keeps_plain index updates cs :
  Exists (fun o => proto o = PlainObject) cs ->
  Exists (fun o => proto o = PlainObject) (updateController index updates cs).
Proof.
  intros H. unfold updateController.
  destruct (cs !! index) as [o|] eqn:Ho; [|exact H].
  apply Exists_exists in H as (p & Hp & Hpl).
  apply list_elem_of_lookup in Hp as [j Hj].
  apply Exists_exists.
  destruct (decide (j = index)) as [->|Hne].
  - exists (spread o updates). split; [|reflexivity].
    apply list_elem_of_lookup. exists index.
    apply list_lookup_insert_eq. eapply lookup_lt_Some; eauto.
  - exists p. split; [|exact Hpl].
    apply list_elem_of_lookup. exists j.
    rewrite list_lookup_insert_ne by congruence. exact Hj.
Qed.

Section WithToFixed.

Variable toFixed : Z -> float -> string.

Lemma updateSimulation_plain st :
  Exists (fun o => proto o = PlainObject) (controllers st) ->
  updateSimulation toFixed st = Throw TypeError.
Proof.
  intros H. unfold updateSimulation, newData. rewrite reduce_plain by exact H.
  reflexivity.
Qed.

Lemma handle_keeps_plain st ev st' :
  Exists (fun o => proto o = PlainObject) (controllers st) ->
  handle toFixed st ev = Normal st' ->
  Exists (fun o => proto o = PlainObject) (controllers st').
Proof.
  intros H. destruct ev; simpl.
  - rewrite updateSimulation_plain by exact H. discriminate.
  - intros [= <-]. exact H.
  - intros [= <-]. unfold applyCustomSetpoint. destruct (is_nan _); exact H.
  - intros [= <-]. exact H.
  - intros [= <-]. simpl. unfold addController. apply Exists_app. left. exact H.
  - intros [= <-]. simpl. apply updateController_keeps_plain, H.
  - intros [= <-]. simpl. apply updateController_keeps_plain, H.
Qed.

(** X5. [updateController] and [autoTuneController], at an index of the
    array, leave there a spread copy without the [update] method; and once
    such a copy is in the array no handler removes it and every later frame
    throws a [TypeError]: after a change of gains or mode, or an auto-tune,
    the simulation does not advance again. *)
Theorem spread_copy_stops_simulation :
  (forall (index : nat) (updates : Partial) (cs : list Controller),
     (index < length cs)%nat ->
     Exists (fun o => proto o = PlainObject) (updateController index updates cs)
     /\ Exists (fun o => proto o = PlainObject) (autoTuneController index cs))
  /\ (forall (evs : list Event) (st : State),
        Exists (fun o => proto o = PlainObject) (controllers st) ->
        Tick ∈ evs ->
        run toFixed evs st = Throw TypeError).
Proof.
  split.
  - intros index updates cs Hlt. split; apply updateController_plain, Hlt.
  - intros evs. induction evs as [|ev evs IH]; intros st Hpl Hin.
    + inversion Hin.
    + simpl. destruct (handle toFixed st ev) as [st'|e] eqn:Hh.
      * apply IH; [eapply handle_keeps_plain; eauto|].
        apply elem_of_cons in Hin as [<-|Hin]; [|exact Hin].
        simpl in Hh. rewrite updateSimulation_plain in Hh by exact Hpl.
        discriminate.
      * destruct ev; simpl in Hh; try discriminate.
        destruct e. reflexivity.
Qed.

End WithToFixed.

Lemma spread_copy_stops_simulation_witness :
  run (fun _ _ => "0.0") [ChangeSetpoint 0.5; Tick]
    (setControllers (autoTuneController 0 (controllers init)) init)
  = Throw TypeError.
Proof.
  apply (proj2 (spread_copy_stops_simulation (fun _ _ => "0.0"))).
  - apply (proj1 (spread_copy_stops_simulation (fun _ _ => "0.0")) 0%nat
             (typeUpdate P) (controllers init)).
    simpl. lia.
  - set_solver.
Defined.

(** *** The names the page gives *)

Lemma update_name c error dt : name (fst (update c error dt)) = name c.
Proof. destruct c; reflexivity. Qed.

Lemma stepped_names prev sp cs : cname <$> stepped prev sp cs = cname <$> cs.
Proof.
  unfold stepped. rewrite <- list_fmap_compose. apply list_fmap_ext.
  intros i o _. unfold cname. simpl. destruct (fields o); reflexivity.
Qed.

Lemma controllerName_inj : Inj (=) (=) controllerName.
Proof.
  intros a b H. unfold controllerName in H. simpl in H.
  injection H as H. exact (inj pretty a b H).
Qed.

Lemma controllerName_not_reserved n :
  controllerName n ∉ ["time"; "setpoint"; "disturbance"].
Proof.
  unfold controllerName. simpl. intros H.
  repeat (apply elem_of_cons in H as [H|H]; [discriminate H|]).
  inversion H.
Qed.

Lemma names_NoDup (n : nat) : NoDup (controllerName <$> seq 1 n).
Proof.
  apply NoDup_fmap_2; [exact controllerName_inj | apply NoDup_seq].
Qed.

Lemma addController_names cs :
  cname <$> cs = controllerName <$> seq 1 (length cs) ->
  cname <$> addController cs
  = controllerName <$> seq 1 (length (addController cs)).
Proof.
  intros H. unfold addController. rewrite length_app. simpl.
  rewrite seq_app, !fmap_app, H. simpl. rewrite Nat.add_comm. reflexivity.
Qed.

Section WithToFixed.

Variable toFixed : Z -> float -> string.

Lemma handle_wellFormed st ev :
  instances (controllers st) ->
  cname <$> controllers st = controllerName <$> seq 1 (length (controllers st)) ->
  spreads ev = false ->
  exists st',
    handle toFixed st ev = Normal st'
    /\ (instances (controllers st')
        /\ cname <$> controllers st'
           = controllerName <$> seq 1 (length (controllers st')))
    /\ length (controllers st')
       = (length (controllers st) + (if isAdd ev then 1 else 0))%nat
    /\ length (data st')
       = (if isTick ev then Nat.min 100 (length (data st) + 1)
          else length (data st)).
Proof.
  intros Hi Hn Hs. destruct ev; try discriminate; simpl.
  - destruct (updateSimulation_instances toFixed st Hi) as (p & _ & Hu & _).
    rewrite Hu. eexists. split; [reflexivity|]. simpl. split; [split|split].
    + apply stepped_instances.
    + rewrite stepped_names. unfold stepped. rewrite length_fmap. exact Hn.
    + unfold stepped. rewrite length_fmap. lia.
    + rewrite slice_100_length, length_app. simpl. reflexivity.
  - eexists. split; [reflexivity|]. simpl. repeat split; try assumption; lia.
  - eexists. split; [reflexivity|]. unfold applyCustomSetpoint.
    destruct (is_nan _); simpl; repeat split; try assumption; lia.
  - eexists. split; [reflexivity|]. simpl. repeat split; try assumption; lia.
  - eexists. split; [reflexivity|]. simpl. split; [split|split].
    + unfold addController. apply Forall_app. split; [exact Hi|].
      repeat constructor.
    + apply addController_names, Hn.
    + unfold addController. rewrite length_app. reflexivity.
    + reflexivity.
Qed.

(** X6. As long as no controller is edited, the page keeps running: after
    any sequence of frames, setpoint and disturbance changes and
    [Add Controller] clicks no frame has thrown, every controller still has
    its [update] method, the names are [PID 1], [PID 2], ... in order,
    hence distinct and never [time], [setpoint] or [disturbance], and there
    is one more controller for each click. *)
Theorem unedited_page_keeps_running :
  forall (evs : list Event) (st : State),
    instances (controllers st) ->
    cname <$> controllers st = controllerName <$> seq 1 (length (controllers st)) ->
    Forall (fun ev => spreads ev = false) evs ->
    exists st',
      run toFixed evs st = Normal st'
      /\ instances (controllers st')
      /\ cname <$> controllers st'
         = controllerName <$> seq 1 (length (controllers st'))
      /\ NoDup (cname <$> controllers st')
      /\ Forall (fun o => cname o ∉ ["time"; "setpoint"; "disturbance"])
           (controllers st')
      /\ length (controllers st')
         = (length (controllers st)
            + length (List.filter isAdd evs))%nat.
Proof.
  intros evs. induction evs as [|ev evs IH]; intros st Hi Hn Hev.
  - exists st. simpl. repeat split; try assumption.
    + rewrite Hn. apply names_NoDup.
    + assert (H : Forall (fun n => n ∉ ["time"; "setpoint"; "disturbance"])
                    (cname <$> controllers st)).
      { rewrite Hn. apply Forall_fmap, Forall_forall.
        intros n _. apply controllerName_not_reserved. }
      rewrite Forall_fmap in H. exact H.
    + lia.
  - apply Forall_cons in Hev as [Hs Hev].
    destruct (handle_wellFormed st ev Hi Hn Hs)
      as (st1 & Hh & [Hi1 Hn1] & Hl1 & _).
    destruct (IH st1 Hi1 Hn1 Hev) as (st' & Hr & Hi' & Hn' & Hnd & Hres & Hl').
    exists st'. simpl. rewrite Hh. repeat split; try assumption.
    rewrite Hl', Hl1. destruct ev; simpl; lia.
Qed.

End WithToFixed.

Lemma init_names :
  cname <$> controllers init = controllerName <$> seq 1 (length (controllers init)).
Proof. vm_compute. reflexivity. Qed.

Lemma unedited_page_keeps_running_witness :
  exists st',
    run (fun _ _ => "0.0") [Tick; AddController; ChangeSetpoint 0.25; Tick] init
    = Normal st'
    /\ length (controllers st') = 3%nat.
Proof.
  destruct (unedited_page_keeps_running (fun _ _ => "0.0")
              [Tick; AddController; ChangeSetpoint 0.25; Tick] init)
    as (st' & Hr & _ & _ & _ & _ & Hl).
  - repeat constructor.
  - vm_compute. reflexivity.
  - repeat constructor.
  - exists st'. split; [exact Hr | exact Hl].
Defined.

Lemma reduce_normal_instances prev sp d cs acc r :
  reduce prev sp d cs acc = Normal r -> instances cs.
Proof.
  revert acc r. induction cs as [|o cs IH]; intros acc r H.
  - constructor.
  - destruct (proto o) eqn:Ho.
    + constructor; [exact Ho|].
      simpl in H. unfold simulate, callUpdate in H. rewrite Ho in H.
      destruct (update (fields o) _ _) as [c' out].
      destruct (reduce prev sp d cs _) as [[rest' acc']|e] eqn:Hr; [|discriminate].
      eapply IH. exact Hr.
    + exfalso. rewrite reduce_plain in H; [discriminate|].
      constructor. exact Ho.
Qed.

Lemma foldl_insert_inv (f : Controller -> PropertyValue) cs (acc : Sample) key v :
  foldl (fun a o => <[cname o := f o]> a) acc cs !! key = Some v ->
  acc !! key = Some v \/ exists o, o ∈ cs /\ cname o = key /\ v = f o.
Proof.
  revert acc. induction cs as [|o cs IH]; intros acc H; [left; exact H|].
  simpl in H. destruct (IH _ H) as [Hacc | (o' & Hin & Hk & Hv)].
  - apply lookup_insert_Some in Hacc as [[Hk Hv] | [Hk Hv]].
    + right. exists o. split; [left|]. split; [exact Hk | symmetry; exact Hv].
    + left. exact Hv.
  - right. exists o'. split; [right; exact Hin|]. split; assumption.
Qed.

Lemma foldl_insert_some (f : Controller -> PropertyValue) cs (acc : Sample) key :
  key ∈ cname <$> cs ->
  exists o, o ∈ cs /\ cname o = key
            /\ foldl (fun a o => <[cname o := f o]> a) acc cs !! key = Some (f o).
Proof.
  revert acc. induction cs as [|o cs IH]; intros acc H; [inversion H|].
  simpl. destruct (decide (key ∈ cname <$> cs)) as [Hin|Hnin].
  - destruct (IH (<[cname o := f o]> acc) Hin) as (o' & Ho' & Hk & Hl).
    exists o'. split; [right; exact Ho'|]. split; assumption.
  - simpl in H. apply elem_of_cons in H as [Hk|H]; [|contradiction].
    exists o. split; [left|]. split; [symmetry; exact Hk|].
    rewrite foldl_insert_notin by exact Hnin. rewrite Hk.
    apply lookup_insert_eq.
Qed.

Lemma lastProcessVariable_last data a name :
  last data = Some a ->
  lastProcessVariable data name = lastProcessVariable [a] name.
Proof. intros H. unfold lastProcessVariable. rewrite H. reflexivity. Qed.

Section WithToFixed.

Variable toFixed : Z -> float -> string.

Lemma stamp_entry st (acc : Sample) name e :
  stamp toFixed st acc !! name = Some (PEntry e) ->
  acc !! name = Some (PEntry e).
Proof.
  unfold stamp. intros H.
  apply lookup_insert_Some in H as [[_ H] | [_ H]]; [discriminate|].
  apply lookup_insert_Some in H as [[_ H] | [_ H]]; [discriminate|].
  apply lookup_insert_Some in H as [[_ H] | [_ H]]; [discriminate|].
  exact H.
Qed.

Lemma stamp_fields st (acc : Sample) :
  stamp toFixed st acc !! "setpoint" = Some (PNum (setpoint st))
  /\ stamp toFixed st acc !! "disturbance" = Some (PNum (disturbance st)).
Proof.
  unfold stamp. split.
  - rewrite lookup_insert_ne by discriminate. apply lookup_insert_eq.
  - apply lookup_insert_eq.
Qed.

Lemma newData_follows st cs' point a :
  newData toFixed st = Normal (cs', point) ->
  last (data st) = Some a -> follows a point.
Proof.
  intros Hn Hl. unfold newData in Hn.
  destruct (reduce _ _ _ _ _) as [[cs acc]|e] eqn:Hr; [|discriminate].
  injection Hn as <- <-.
  pose proof (reduce_normal_instances _ _ _ _ _ _ Hr) as Hi.
  rewrite (reduce_instances _ _ _ _ _ Hi) in Hr. injection Hr as _ <-.
  intros name e He. apply stamp_entry in He.
  destruct (stamp_fields st
              (foldl (fun a o => <[cname o := PEntry (entryOf (data st) (setpoint st)
                                                   (disturbance st) (fields o))]> a)
                 ∅ (controllers st))) as [Hsp Hd].
  exists (setpoint st), (disturbance st). split; [exact Hsp|]. split; [exact Hd|].
  apply foldl_insert_inv in He as [He | (o & _ & Hk & Hv)].
  - rewrite lookup_empty in He. discriminate.
  - injection Hv as ->. unfold entryOf. simpl.
    rewrite <- (lastProcessVariable_last _ _ _ Hl).
    unfold cname in Hk. rewrite Hk. split; reflexivity.
Qed.

Lemma adv_handle_data st ev st' :
  handle toFixed st ev = Normal st' ->
  data st' = data st
  \/ exists cs' point,
       newData toFixed st = Normal (cs', point)
       /\ data st' = Js.slice (-100) (data st ++ [point]).
Proof.
  destruct ev; simpl; try (intros [= <-]; left; reflexivity).
  - unfold updateSimulation.
    destruct (newData toFixed st) as [[cs' point]|e]; [|discriminate].
    intros [= <-]. right. exists cs', point. split; reflexivity.
  - intros [= <-]. left. unfold applyCustomSetpoint.
    destruct (is_nan _); reflexivity.
Qed.

Lemma adv_handle_chained st ev st' :
  handle toFixed st ev = Normal st' -> chained (data st) -> chained (data st').
Proof.
  intros Hh H. destruct (adv_handle_data _ _ _ Hh) as [-> | (cs' & point & Hn & ->)];
    [exact H|].
  unfold chained. apply adjacent_push; [exact H|].
  intros a Hl. eapply newData_follows; eassumption.
Qed.

(** X8. On the multi-controller page every entry of a sample of [data] was
    computed from the sample before it: its error is the sample's setpoint
    minus the process variable the earlier sample holds under the same name
    ([0] if it holds none), and its process variable is that earlier value
    plus [output*0.1] plus the sample's disturbance.  This holds after any
    sequence of events that has not thrown, also across the cut to a
    hundred samples and for controllers added on the way. *)
Theorem history_is_chained :
  forall (evs : list Event) (st st' : State),
    chained (data st) ->
    run toFixed evs st = Normal st' ->
    chained (data st').
Proof.
  intros evs. induction evs as [|ev evs IH]; intros st st' H Hr.
  - injection Hr as <-. exact H.
  - simpl in Hr. destruct (handle toFixed st ev) as [st1|e] eqn:Hh; [|discriminate].
    eapply IH; [|exact Hr]. eapply adv_handle_chained; eassumption.
Qed.

(** X7. The controllers of one frame do not see each other: the entry a
    frame stores for a controller, and the state the controller is left
    in, are those of a frame run with that controller alone. *)
Theorem controllers_do_not_interact :
  forall (st : State) (o : Controller),
    instances (controllers st) ->
    NoDup (cname <$> controllers st) ->
    Forall (fun o => cname o ∉ ["time"; "setpoint"; "disturbance"])
      (controllers st) ->
    o ∈ controllers st ->
    exists cs point o' point',
      newData toFixed st = Normal (cs, point)
      /\ newData toFixed (setControllers [o] st) = Normal ([o'], point')
      /\ point !! cname o = point' !! cname o
      /\ o' ∈ cs.
Proof.
  intros st o Hi Hnd Hres Hin.
  assert (Ho : instances [o]).
  { constructor; [|constructor]. unfold instances in Hi.
    rewrite Forall_forall in Hi. apply Hi, Hin. }
  assert (Hnr : cname o ∉ ["time"; "setpoint"; "disturbance"])
    by (rewrite Forall_forall in Hres; apply Hres, Hin).
  eexists _, _, _, _.
  split; [apply newData_instances, Hi|].
  split; [apply (newData_instances toFixed (setControllers [o] st)), Ho|].
  split.
  - rewrite !stamp_lookup by exact Hnr. simpl.
    rewrite (foldl_insert_lookup
               (fun o => PEntry (entryOf (data st) (setpoint st)
                                   (disturbance st) (fields o)))
               _ _ _ Hnd Hin).
    symmetry. apply lookup_insert_eq.
  - unfold stepped. simpl. apply list_elem_of_fmap. exists o. split; [reflexivity|exact Hin].
Qed.

End WithToFixed.

Lemma history_is_chained_witness :
  exists st',
    run (fun _ _ => "0.0") [Tick; ChangeSetpoint 0.75; AddController; Tick; Tick] init
    = Normal st'
    /\ chained (data st').
Proof.
  eexists. split; [vm_compute; reflexivity|].
  eapply (history_is_chained (fun _ _ => "0.0")
            [Tick; ChangeSetpoint 0.75; AddController; Tick; Tick] init).
  - intros k a b Ha. inversion Ha.
  - vm_compute. reflexivity.
Defined.

Lemma controllers_do_not_interact_witness :
  exists cs point o' point',
    newData (fun _ _ => "0.0") init = Normal (cs, point)
    /\ newData (fun _ _ => "0.0")
         (setControllers [mkController ClassInstance (new "PID 2" 1 0 0 PID)] init)
       = Normal ([o'], point')
    /\ point !! "PID 2" = point' !! "PID 2".
Proof.
  destruct (controllers_do_not_interact (fun _ _ => "0.0") init
              (mkController ClassInstance (new "PID 2" 1 0 0 PID)))
    as (cs & point & o' & point' & H1 & H2 & H3 & _).
  - repeat constructor.
  - apply (bool_decide_unpack _). vm_compute. exact I.
  - repeat constructor; apply (bool_decide_unpack _); vm_compute; exact I.
  - set_solver.
  - exists cs, point, o', point'. repeat split; assumption.
Defined.

Lemma Forall_names (P : string -> Prop) (cs cs' : list Controller) :
  cname <$> cs' = cname <$> cs ->
  Forall (fun o => P (cname o)) cs -> Forall (fun o => P (cname o)) cs'.
Proof.
  intros E H.
  assert (H' : Forall P (cname <$> cs')) by (rewrite E; apply Forall_fmap; exact H).
  rewrite Forall_fmap in H'. exact H'.
Qed.

Section WithToFixed.
Variable toFixed : Z -> float -> string.

Lemma adv_handle_numbers st ev st' :
  randomIsNumber ev ->
  handle toFixed st ev = Normal st' ->
  is_nan (setpoint st) = false /\ is_nan (disturbance st) = false ->
  is_nan (setpoint st') = false /\ is_nan (disturbance st') = false.
Proof.
  intros Hr Hh [Hs Hd]. destruct ev; simpl in *.
  - unfold updateSimulation in Hh.
    destruct (newData toFixed st) as [[cs' p]|e]; [|discriminate].
    injection Hh as <-. split; assumption.
  - injection Hh as <-. split; [apply random_setpoint_number, Hr | exact Hd].
  - injection Hh as <-. unfold applyCustomSetpoint.
    destruct (is_nan newSetpoint) eqn:E; simpl; split; assumption.
  - injection Hh as <-. split; [exact Hs | apply random_disturbance_number, Hr].
  - injection Hh as <-. split; assumption.
  - injection Hh as <-. split; assumption.
  - injection Hh as <-. split; assumption.
Qed.

Lemma adv_run_numbers :
  forall (evs : list Event) (st st' : State),
    Forall randomIsNumber evs ->
    is_nan (setpoint st) = false -> is_nan (disturbance st) = false ->
    run toFixed evs st = Normal st' ->
    is_nan (setpoint st') = false /\ is_nan (disturbance st') = false.
Proof.
  intros evs. induction evs as [|ev evs IH]; intros st st' Hev Hs Hd Hr.
  - injection Hr as <-. split; assumption.
  - apply Forall_cons in Hev as [Hr1 Hev]. simpl in Hr.
    destruct (handle toFixed st ev) as [st1|e] eqn:Hh; [|discriminate].
    destruct (adv_handle_numbers _ _ _ Hr1 Hh (conj Hs Hd)) as [Hs1 Hd1].
    eapply IH; eassumption.
Qed.

(** *** The page at rest *)

Lemma entryOf_rest prev sp d c :
  Calls.atRest c -> is_zero sp = true -> is_zero d = true ->
  is_zero (lastProcessVariable prev (name c)) = true ->
  let e := entryOf prev sp d c in
  is_zero (processVariable e) = true /\ is_zero (error e) = true
  /\ is_zero (output e) = true.
Proof.
  intros Hc Hsp Hd Hl. cbv zeta. unfold entryOf. cbn [processVariable error output].
  assert (He : is_zero (sp - lastProcessVariable prev (name c)) = true)
    by (apply sub_zero_zero; assumption).
  destruct (CallsSpec.update_rest c _ 0.1%float Hc He eq_refl eq_refl) as [Ho _].
  repeat split; try assumption.
  apply add_zero_zero; [|exact Hd].
  apply add_zero_zero; [exact Hl|].
  apply mul_zero_finite; [exact Ho | reflexivity].
Qed.

Lemma tick_at_rest st :
  instances (controllers st) ->
  Forall (fun o => cname o ∉ ["time"; "setpoint"; "disturbance"]) (controllers st) ->
  atRest st ->
  exists st' point,
    newData toFixed st = Normal (controllers st', point)
    /\ updateSimulation toFixed st = Normal st'
    /\ instances (controllers st')
    /\ Forall (fun o => cname o ∉ ["time"; "setpoint"; "disturbance"])
         (controllers st')
    /\ atRest st'
    /\ (forall name e, point !! name = Some (PEntry e) ->
          is_zero (processVariable e) = true /\ is_zero (error e) = true
          /\ is_zero (output e) = true).
Proof.
  intros Hi Hres (Hsp & Hd & Hcs & Hl).
  destruct (updateSimulation_instances toFixed st Hi) as (point & Hn & Hu & _).
  exists (mkState (stepped (data st) (setpoint st) (controllers st))
            (setpoint st) (Js.slice (-100) (data st ++ [point]))
            (time st + 0.1)%float (disturbance st)), point.
  split; [exact Hn|]. split; [exact Hu|]. simpl.
  assert (Hentry : forall o, o ∈ controllers st ->
            let e := entryOf (data st) (setpoint st) (disturbance st) (fields o) in
            is_zero (processVariable e) = true /\ is_zero (error e) = true
            /\ is_zero (output e) = true).
  { intros o Ho. apply entryOf_rest; try assumption.
    - rewrite Forall_forall in Hcs. apply Hcs, Ho.
    - rewrite Forall_forall in Hl. apply (Hl o Ho). }
  rewrite (newData_instances _ _ Hi) in Hn. injection Hn as <-.
  split; [apply stepped_instances|].
  assert (Hnames : cname <$> stepped (data st) (setpoint st) (controllers st)
                   = cname <$> controllers st) by apply stepped_names.
  assert (Hres' : Forall (fun o => cname o ∉ ["time"; "setpoint"; "disturbance"])
                    (stepped (data st) (setpoint st) (controllers st))).
  { exact (Forall_names (fun n => n ∉ ["time"; "setpoint"; "disturbance"])
             _ _ Hnames Hres). }
  split; [exact Hres'|]. split.
  - unfold atRest. simpl. split; [exact Hsp|]. split; [exact Hd|]. split.
    + unfold stepped. apply Forall_fmap, Forall_forall. intros o Ho. simpl.
      assert (He : is_zero (setpoint st - lastProcessVariable (data st) (cname o)) = true).
      { apply sub_zero_zero; [exact Hsp|]. rewrite Forall_forall in Hl. apply (Hl o Ho). }
      apply (CallsSpec.update_rest (fields o) _ 0.1%float); [|exact He|reflexivity|reflexivity].
      rewrite Forall_forall in Hcs. apply Hcs, Ho.
    + apply (Forall_names (fun n => is_zero (lastProcessVariable _ n) = true)
               _ _ Hnames).
      apply Forall_forall. intros o Ho. simpl.
      unfold lastProcessVariable.
      destruct (slice_100_push (data st)
                  (stamp toFixed st
                     (foldl (fun a o => <[cname o := PEntry (entryOf (data st) (setpoint st)
                                                  (disturbance st) (fields o))]> a)
                        ∅ (controllers st)))) as (_ & Hlast & _).
      cbv zeta in Hlast. rewrite Hlast.
      rewrite stamp_lookup by (rewrite Forall_forall in Hres; apply Hres, Ho).
      destruct (foldl_insert_some
                  (fun o => PEntry (entryOf (data st) (setpoint st)
                                      (disturbance st) (fields o)))
                  (controllers st) ∅ (cname o)) as (o' & Ho' & _ & Hlk).
      { apply list_elem_of_fmap. exists o. split; [reflexivity | exact Ho]. }
      rewrite Hlk. apply (Hentry o' Ho').
  - intros name e He. apply stamp_entry in He.
    apply foldl_insert_inv in He as [He | (o & Ho & _ & Hv)].
    + rewrite lookup_empty in He. discriminate.
    + injection Hv as ->. apply (Hentry o Ho).
Qed.

(** X10. The multi-controller page at rest stays at rest: with a zero
    setpoint and disturbance, controllers that have their [update] method,
    are not named [time], [setpoint] or [disturbance], have accumulated
    nothing and have numbers for gains, and last process variables that are
    zeros, every frame completes and stores, for every controller, a
    process variable, an error and an output that are zeros. *)
Theorem rest_is_kept :
  forall (n : nat) (st : State),
    instances (controllers st) ->
    Forall (fun o => cname o ∉ ["time"; "setpoint"; "disturbance"]) (controllers st) ->
    atRest st ->
    exists st',
      ticks toFixed n st = Normal st'
      /\ atRest st'
      /\ Forall (fun point =>
                   forall name e, point !! name = Some (PEntry e) ->
                     is_zero (processVariable e) = true
                     /\ is_zero (error e) = true
                     /\ is_zero (output e) = true)
           (appended toFixed n st).
Proof.
  induction n as [|n IH]; intros st Hi Hres Hr.
  - exists st. simpl. split; [reflexivity|]. split; [exact Hr|constructor].
  - destruct (tick_at_rest st Hi Hres Hr)
      as (st1 & point & Hn & Hu & Hi1 & Hres1 & Hr1 & Hp).
    destruct (IH st1 Hi1 Hres1 Hr1) as (st' & Ht & Hr' & Hall).
    exists st'. simpl. rewrite Hn, Hu.
    split; [exact Ht|]. split; [exact Hr'|]. constructor; assumption.
Qed.

End WithToFixed.

Lemma rest_is_kept_witness :
  exists st', ticks (fun _ _ => "0.0") 120 init = Normal st' /\ atRest st'.
Proof.
  destruct (rest_is_kept (fun _ _ => "0.0") 120 init) as (st' & Ht & Hr & _).
  - repeat constructor.
  - repeat constructor; apply (bool_decide_unpack _); vm_compute; exact I.
  - unfold atRest. simpl. split; [reflexivity|]. split; [reflexivity|].
    split; repeat constructor.
  - exists st'. split; assumption.
Defined.

End AdvancedPageSpec.

(** ** The setpoint and disturbance handlers of both pages *)

Module HandlersSpec.

Import Page.

(** X12. On both pages a setpoint and a disturbance that are not [NaN] are
    never [NaN] later, as long as [Math.random()] returns a number:
    [changeSetpoint] and [applyDisturbance] compute them from it,
    [applyCustomSetpoint] discards a parse that is [NaN], and no other
    handler writes them.  ([Infinity] is accepted.) *)
Theorem setpoint_is_never_nan :
  forall toFixed : Z -> float -> string,
    (forall (evs : list Handlers.AdvancedPIDVisualizer.Event)
            (st st' : AdvancedPIDVisualizer.State),
       Forall Handlers.AdvancedPIDVisualizer.randomIsNumber evs ->
       is_nan (AdvancedPIDVisualizer.setpoint st) = false ->
       is_nan (AdvancedPIDVisualizer.disturbance st) = false ->
       Handlers.AdvancedPIDVisualizer.run toFixed evs st = Normal st' ->
       is_nan (AdvancedPIDVisualizer.setpoint st') = false
       /\ is_nan (AdvancedPIDVisualizer.disturbance st') = false)
    /\ (forall (evs : list Handlers.PIDVisualizer.Event)
               (st : PIDVisualizer.State),
          Forall Handlers.PIDVisualizer.randomIsNumber evs ->
          is_nan (PIDVisualizer.s_setpoint st) = false ->
          is_nan (PIDVisualizer.s_disturbance st) = false ->
          let st' := Handlers.PIDVisualizer.run toFixed evs st in
          is_nan (PIDVisualizer.s_setpoint st') = false
          /\ is_nan (PIDVisualizer.s_disturbance st') = false).
Proof.
  intros toFixed. split.
  - intros evs st st' Hev Hs Hd Hr.
    exact (AdvancedPageSpec.adv_run_numbers toFixed evs st st' Hev Hs Hd Hr).
  - intros evs st Hev Hs Hd. cbv zeta.
    exact (SimplePageSpec.simple_run_numbers toFixed evs st Hev Hs Hd).
Qed.

Lemma setpoint_is_never_nan_witness :
  is_nan
    (PIDVisualizer.s_setpoint
       (Handlers.PIDVisualizer.run (fun _ _ => "0.0")
          [Handlers.PIDVisualizer.ChangeSetpoint 0.25;
           Handlers.PIDVisualizer.Tick;
           Handlers.PIDVisualizer.ApplyCustomSetpoint nan]
          PIDVisualizer.init))
  = false.
Proof.
  refine (proj1 (proj2 (setpoint_is_never_nan (fun _ _ => "0.0")) _
                   PIDVisualizer.init _ eq_refl eq_refl)).
  repeat constructor.
Defined.

End HandlersSpec.

(** ** More of the analysis tab *)

Module AnalysisMore.

Import Js FloatFacts SignClass MoreFloatFacts Page AnalysisSpec.
Import Page.AdvancedPIDVisualizer.

Lemma within_band_not_positive name sp point :
  (0 <? sp)%float = false -> within_band name sp point = false.
Proof.
  intros H. unfold within_band. apply abs_ltb_nonpositive, not_positive_band, H.
Qed.

Lemma findIndex_from_none {A} (p : A -> Z -> list A -> bool) arr rest i :
  (forall x j, p x j arr = false) -> Js.findIndex_from p arr i rest = (-1)%Z.
Proof.
  intros H. revert i. induction rest as [|x rest IH]; intros i; simpl;
    [reflexivity|]. rewrite H. apply IH.
Qed.

(** X14. For a setpoint that is not above zero (zero, the page's initial
    setpoint, a negative number, or [NaN]) no sample passes the band test,
    whatever the data: [findIndex] answers [-1] and the settling time shown
    is [-0.1]. *)
Theorem settlingTime_not_positive_setpoint :
  forall (data : list Sample) (name : string) (setpoint : float),
    (0 <? setpoint)%float = false ->
    settlingIndex data name setpoint = (-1)%Z
    /\ settlingTime data name setpoint = (-0.1)%float.
Proof.
  intros data name sp H.
  assert (Hi : settlingIndex data name sp = (-1)%Z).
  { unfold settlingIndex, Js.findIndex. apply findIndex_from_none.
    intros x j. rewrite (within_band_not_positive _ _ _ H).
    rewrite andb_false_r. reflexivity. }
  split; [exact Hi|]. unfold settlingTime. rewrite Hi. reflexivity.
Qed.

Lemma settlingTime_not_positive_setpoint_witness :
  settlingTime [ {["PID 1" := PEntry (mkEntry 0 0 0)]};
                 {["PID 1" := PEntry (mkEntry 0 0 0)]} ] "PID 1" 0
  = (-0.1)%float.
Proof.
  exact (proj2 (settlingTime_not_positive_setpoint _ "PID 1" 0 eq_refl)).
Defined.

(** X13. [settlingTime] is [0.1] times the first index [k > 0] from which
    every sample passes the band test [|pv - setpoint| < 0.05*setpoint],
    and [-0.1] when there is no such index; an index [0] is never
    reported and an array of fewer than two samples always gives [-0.1]. *)
Theorem settlingTime_first_settled_index :
  forall (data : list Sample) (name : string) (setpoint : float),
    let settledFrom (k : nat) :=
      forallb (within_band name setpoint) (drop k data) in
    (settlingTime data name setpoint = (-0.1)%float
     /\ forall k : nat, (0 < k < length data)%nat -> settledFrom k = false)
    \/ (exists k : nat,
          (0 < k < length data)%nat
          /\ settlingTime data name setpoint
             = (Js.of_index (Z.of_nat k) * 0.1)%float
          /\ settledFrom k = true
          /\ forall j : nat, (0 < j < k)%nat -> settledFrom j = false).
Proof.
  intros data name sp. cbv zeta.
  destruct (settlingIndex_spec data name sp) as [[Hr Hall] | (Hr & Hs & Hlt)];
    cbv zeta in *.
  - left. split; [apply settlingTime_not_found, Hr | exact Hall].
  - right. exists (Z.to_nat (settlingIndex data name sp)).
    split; [lia|]. split; [|split; assumption].
    unfold settlingTime. rewrite Z2Nat.id by lia. reflexivity.
Qed.

(** X15. [steadyStateError] is a number exactly when the last sample has an
    entry for the controller whose error is within [0.01] of zero, and it
    is then that error; with no sample, no entry, or a larger or [NaN]
    error it is ['N/A']. *)
Theorem steadyStateError_spec :
  forall (data : list Sample) (name : string) (e : float),
    steadyStateError data name = Some e
    <-> exists point entry,
          last data = Some point /\ point !! name = Some (PEntry entry)
          /\ error entry = e /\ (abs e <? 0.01)%float = true.
Proof.
  intros data name e. unfold steadyStateError. split.
  - destruct (last data) as [point|]; [|simpl; discriminate].
    destruct (point !! name) as [[entry|x|s]|] eqn:Hp; simpl; try discriminate.
    destruct (abs (error entry) <? 0.01)%float eqn:Hb; [|discriminate].
    intros [= <-]. exists point, entry. repeat split; assumption.
  - intros (point & entry & Hl & Hp & <- & Hb). rewrite Hl, Hp. simpl.
    rewrite Hb. reflexivity.
Qed.

End AnalysisMore.

(** ** The 3D scene *)

Module SceneSpec.

Import Js FloatFacts MoreFloatFacts pidController Calls CallsSpec.

Lemma frame_is_pid_update (props : Scene.PIDControllerProps)
    (pidState : Scene.PidState) (currentRotation delta : float) :
  let error :=
    (Scene.setpoint props - currentRotation + Scene.disturbance props)%float in
  let controller :=
    mkPIDController "" (Scene.kp props) (Scene.ki props) (Scene.kd props) PID
      (Scene.integral pidState) (Scene.prevError pidState) in
  let r := update controller error delta in
  Scene.useFrame props (Some currentRotation) pidState delta
  = (Some (currentRotation + snd r * delta)%float,
     Scene.mkPidState (integral (fst r)) (previousError (fst r)),
     Some (Scene.mkUpdate error (currentRotation + snd r * delta)%float)).
Proof. reflexivity. Qed.

Lemma frames_unmounted fs ps : Scene.frames None ps fs = (None, ps, []).
Proof.
  induction fs as [|[props delta] fs IH]; [reflexivity|].
  cbn [Scene.frames Scene.useFrame]. rewrite IH. reflexivity.
Qed.

(** X16. With the ref attached, a run of frames of the 3D scene under the
    same props computes what [PIDController.update] computes in mode PID,
    called once per frame with the error the frame reports and the frame's
    [delta]: [pidState] holds the controller's integral and previous
    error.  The error of a frame is the setpoint minus the rotation before
    the frame plus the disturbance (which is part of the error and is not
    added to the rotation), the rotation advances by [output*delta], and
    [onUpdate] receives, as [output], the new rotation.  Without the ref no
    frame does anything. *)
Theorem scene_frames_are_pid_updates :
  forall (props : Scene.PIDControllerProps) (deltas : list float)
         (rotation : float) (pidState : Scene.PidState),
    let controller :=
      mkPIDController "" (Scene.kp props) (Scene.ki props) (Scene.kd props) PID
        (Scene.integral pidState) (Scene.prevError pidState) in
    exists (r : float) (pidState' : Scene.PidState) (us : list Scene.Update),
      let calls := zip (Scene.error <$> us) deltas in
      let rotations := rotation :: (Scene.output <$> us) in
      Scene.frames (Some rotation) pidState ((fun delta => (props, delta)) <$> deltas)
      = (Some r, pidState', us)
      /\ Scene.integral pidState' = integral (fst (updates controller calls))
      /\ Scene.prevError pidState' = previousError (fst (updates controller calls))
      /\ length us = length deltas
      /\ last rotations = Some r
      /\ (forall (k : nat) (before : float) (u : Scene.Update) (out delta : float),
            rotations !! k = Some before -> us !! k = Some u ->
            snd (updates controller calls) !! k = Some out ->
            deltas !! k = Some delta ->
            Scene.error u
            = (Scene.setpoint props - before + Scene.disturbance props)%float
            /\ Scene.output u = (before + out * delta)%float)
      /\ Scene.frames None pidState ((fun delta => (props, delta)) <$> deltas)
         = (None, pidState, []).
Proof.
  intros props deltas. induction deltas as [|delta deltas IH]; intros rot ps; cbv zeta.
  - exists rot, ps, []. cbn.
    split; [reflexivity|]. split; [reflexivity|]. split; [reflexivity|].
    split; [reflexivity|]. split; [reflexivity|]. split; [|reflexivity].
    intros k before u out delta _ Hu. rewrite lookup_nil in Hu. discriminate.
  - rewrite fmap_cons. cbn [Scene.frames].
    rewrite frame_is_pid_update. cbv zeta.
    set (e := (Scene.setpoint props - rot + Scene.disturbance props)%float).
    set (c := mkPIDController "" (Scene.kp props) (Scene.ki props) (Scene.kd props)
                PID (Scene.integral ps) (Scene.prevError ps)).
    set (r1 := (rot + snd (update c e delta) * delta)%float).
    destruct (IH r1 (Scene.mkPidState (integral (fst (update c e delta)))
                       (previousError (fst (update c e delta)))))
      as (r & ps' & us & Hf & Hi & Hp & Hl & Hlast & Hk & _).
    cbv zeta in Hi, Hp, Hlast, Hk. cbn [Scene.integral Scene.prevError] in Hi, Hp, Hk.
    assert (Hc1 : mkPIDController "" (Scene.kp props) (Scene.ki props)
                    (Scene.kd props) PID (integral (fst (update c e delta)))
                    (previousError (fst (update c e delta)))
                  = fst (update c e delta)) by reflexivity.
    rewrite Hc1 in Hi, Hp, Hk.
    exists r, ps', (Scene.mkUpdate e r1 :: us).
    rewrite Hf. cbn [from_option app fmap list_fmap Scene.error zip zip_with].
    change (zip_with pair (Scene.error <$> us) deltas)
      with (zip (Scene.error <$> us) deltas).
    rewrite updates_cons. cbn [fst snd].
    split; [reflexivity|]. split; [exact Hi|]. split; [exact Hp|].
    split; [cbn; congruence|]. split.
    { cbn [Scene.output]. rewrite last_cons.
      change (r1 :: list_fmap _ _ Scene.output us) with (r1 :: (Scene.output <$> us)).
      rewrite Hlast. reflexivity. }
    split;
      [|exact (frames_unmounted
                 ((props, delta) :: ((fun delta => (props, delta)) <$> deltas)) ps)].
    intros k before u out d Hb Hu Ho Hd. destruct k as [|k].
    + cbn in Hb, Hu, Ho, Hd. injection Hb as <-. injection Hu as <-.
      injection Ho as <-. injection Hd as <-. split; reflexivity.
    + cbn in Hb, Hu, Ho, Hd. eapply Hk; eassumption.
Qed.

Lemma frame_zero_delta props rot ps delta :
  is_zero delta = true ->
  exists r ps' e,
    Scene.useFrame props (Some rot) ps delta
    = (Some r, ps', Some (Scene.mkUpdate e r))
    /\ is_nan r = true.
Proof.
  intros Hd. eexists _, _, _. split; [reflexivity|].
  apply add_nan_r, mul_nonfinite_zero; [|exact Hd].
  apply add_nonfinite_r, mul_nonfinite_r, div_zero_nonfinite, Hd.
Qed.

Lemma frame_nan props rot ps delta :
  is_nan rot = true ->
  exists r ps' e,
    Scene.useFrame props (Some rot) ps delta
    = (Some r, ps', Some (Scene.mkUpdate e r))
    /\ is_nan r = true.
Proof.
  intros Hn. eexists _, _, _. split; [reflexivity|].
  apply add_nan_l, Hn.
Qed.

Lemma frames_nan fs :
  forall rot ps, is_nan rot = true ->
    exists r ps' us,
      Scene.frames (Some rot) ps fs = (Some r, ps', us)
      /\ is_nan r = true
      /\ length us = length fs
      /\ Forall (fun u => is_nan (Scene.output u) = true) us.
Proof.
  induction fs as [|[props delta] fs IH]; intros rot ps Hn.
  - exists rot, ps, []. repeat split; [exact Hn | constructor].
  - destruct (frame_nan props rot ps delta Hn) as (r & ps1 & e & Hf & Hr).
    destruct (IH r ps1 Hr) as (r' & ps' & us & Hfs & Hr' & Hl & Hall).
    exists r', ps', (Scene.mkUpdate e r :: us).
    cbn [Scene.frames]. rewrite Hf, Hfs. cbn.
    split; [reflexivity|]. split; [exact Hr'|]. split; [congruence|].
    constructor; [exact Hr | exact Hall].
Qed.

Lemma frames_mounted fs :
  forall rot ps,
    exists r ps' us,
      Scene.frames (Some rot) ps fs = (Some r, ps', us) /\ length us = length fs.
Proof.
  induction fs as [|[props delta] fs IH]; intros rot ps.
  - exists rot, ps, []. split; reflexivity.
  - cbn [Scene.frames Scene.useFrame]. cbv zeta.
    edestruct IH as (r & ps' & us & Hfs & Hl). rewrite Hfs.
    eexists _, _, _. split; [reflexivity|]. cbn. congruence.
Qed.

Lemma frames_app fs1 fs2 pillar ps :
  Scene.frames pillar ps (fs1 ++ fs2)
  = let '(pillar1, ps1, us1) := Scene.frames pillar ps fs1 in
    let '(pillar2, ps2, us2) := Scene.frames pillar1 ps1 fs2 in
    (pillar2, ps2, us1 ++ us2).
Proof.
  revert pillar ps. induction fs1 as [|[props delta] fs1 IH]; intros pillar ps.
  - cbn. destruct (Scene.frames pillar ps fs2) as [[p2 s2] u2]. reflexivity.
  - cbn [app Scene.frames].
    destruct (Scene.useFrame props pillar ps delta) as [[p1 s1] u1].
    rewrite IH.
    destruct (Scene.frames p1 s1 fs1) as [[p1' s1'] us1].
    destruct (Scene.frames p1' s1' fs2) as [[p2 s2] us2].
    rewrite app_assoc. reflexivity.
Qed.

(** X20. What a frame whose [delta] is a zero does depends on the ref.
    While [pillarRef.current] is null, which is the case as long as
    [Pillar] does not take the ref it is given, such a frame does what
    every frame does: nothing.  No rotation is written, [pidState] is kept
    and [onUpdate] is not called.  With a mesh in [pillarRef.current] the
    frame leaves the rotation [NaN], whatever the gains, the setpoint and
    the state: the derivative divides by [delta] and the output, an
    infinity or [NaN], is multiplied by it.  The rotation is then [NaN]
    after every later frame, and [onUpdate] reports [NaN] from that frame
    on. *)
Theorem scene_zero_delta_frame :
  forall (before after : list (Scene.PIDControllerProps * float))
         (props : Scene.PIDControllerProps) (delta : float)
         (pidState : Scene.PidState),
    is_zero delta = true ->
    Scene.frames None pidState (before ++ (props, delta) :: after)
    = (None, pidState, [])
    /\ forall rotation : float,
         exists r pidState' us,
           Scene.frames (Some rotation) pidState
             (before ++ (props, delta) :: after)
           = (Some r, pidState', us)
           /\ is_nan r = true
           /\ length us = (length before + S (length after))%nat
           /\ Forall (fun u => is_nan (Scene.output u) = true)
                (drop (length before) us).
Proof.
  intros before after props delta ps Hd.
  split; [apply frames_unmounted|]. intros rot.
  rewrite frames_app.
  destruct (frames_mounted before rot ps) as (r1 & ps1 & us1 & Hb & Hl1).
  rewrite Hb. cbn [Scene.frames].
  destruct (frame_zero_delta props r1 ps1 delta Hd) as (r2 & ps2 & e & Hf & Hr2).
  rewrite Hf.
  destruct (frames_nan after r2 ps2 Hr2) as (r3 & ps3 & us3 & Ha & Hr3 & Hl3 & Hall).
  rewrite Ha. cbn.
  exists r3, ps3, (us1 ++ Scene.mkUpdate e r2 :: us3).
  split; [reflexivity|]. split; [exact Hr3|]. split.
  - rewrite length_app. cbn. lia.
  - rewrite <- Hl1, drop_app_length. constructor; [exact Hr2 | exact Hall].
Qed.

Lemma scene_zero_delta_frame_witness :
  Scene.frames None (Scene.mkPidState 0 0)
    ([(Scene.mkProps 1 0 0 0 1, 0.016%float)]
     ++ (Scene.mkProps 1 0 0 0 1, 0%float) :: [(Scene.mkProps 1 0 0 0 1, 0.016%float)])
  = (None, Scene.mkPidState 0 0, [])
  /\ exists r pidState' us,
       Scene.frames (Some 0%float) (Scene.mkPidState 0 0)
         ([(Scene.mkProps 1 0 0 0 1, 0.016%float)]
          ++ (Scene.mkProps 1 0 0 0 1, 0%float)
             :: [(Scene.mkProps 1 0 0 0 1, 0.016%float)])
       = (Some r, pidState', us)
       /\ is_nan r = true.
Proof.
  destruct (scene_zero_delta_frame
              [(Scene.mkProps 1 0 0 0 1, 0.016%float)]
              [(Scene.mkProps 1 0 0 0 1, 0.016%float)]
              (Scene.mkProps 1 0 0 0 1) 0 (Scene.mkPidState 0 0) eq_refl)
    as [Hnone Hsome].
  split; [exact Hnone|].
  destruct (Hsome 0%float) as (r & ps & us & H & Hr & _).
  exists r, ps, us. split; assumption.
Defined.

End SceneSpec.

(** ** Editing a controller *)

Module EditSpec.

Import pidController Page Page.AdvancedPIDVisualizer.

(** X17. [updateController] at an index of the array keeps the length and
    every other controller, and replaces the controller by its spread copy:
    each field named by [updates] takes the given value and every other
    field, [integral] and [previousError] among them, keeps its own. *)
Theorem updateController_frame :
  forall (index : nat) (updates : Partial) (cs : list Controller) (o : Controller),
    cs !! index = Some o ->
    let cs' := updateController index updates cs in
    length cs' = length cs
    /\ (forall j, j <> index -> cs' !! j = cs !! j)
    /\ cs' !! index = Some (spread o updates)
    /\ (let c := fields o in
        let c' := fields (spread o updates) in
        name c' = default (name c) (u_name updates)
        /\ kp c' = default (kp c) (u_kp updates)
        /\ ki c' = default (ki c) (u_ki updates)
        /\ kd c' = default (kd c) (u_kd updates)
        /\ type c' = default (type c) (u_type updates)
        /\ integral c' = default (integral c) (u_integral updates)
        /\ previousError c' = default (previousError c) (u_previousError updates)).
Proof.
  intros index updates cs o Ho. cbv zeta. unfold updateController. rewrite Ho.
  split; [apply length_insert|]. split; [|split].
  - intros j Hj. apply list_lookup_insert_ne. congruence.
  - apply list_lookup_insert_eq. eapply lookup_lt_Some; eauto.
  - repeat split.
Qed.

Lemma updateController_frame_witness :
  updateController 1 (typeUpdate PD) (controllers init) !! 0%nat
  = controllers init !! 0%nat.
Proof.
  refine (proj1 (proj2 (updateController_frame 1 (typeUpdate PD) (controllers init)
                          _ eq_refl)) 0%nat _).
  discriminate.
Defined.

(** X18. The [Auto-tune] button gives the active controller the gains
    [3.5999999999999996], [35.99999999999999] and [0.09], keeps its name,
    mode, integral and previous error, leaves the other controllers as
    they are, and leaves a spread copy in place of the instance. *)
Theorem autoTuneController_sets_gains :
  forall (activeController : nat) (cs : list Controller) (o : Controller),
    cs !! activeController = Some o ->
    let cs' := autoTuneController activeController cs in
    cs' !! activeController
    = Some (mkController PlainObject
              (mkPIDController (name (fields o)) 3.5999999999999996
                 35.99999999999999 0.09 (type (fields o))
                 (integral (fields o)) (previousError (fields o))))
    /\ forall j, j <> activeController -> cs' !! j = cs !! j.
Proof.
  intros a cs o Ho. cbv zeta. unfold autoTuneController, updateController.
  rewrite Ho. split.
  - rewrite list_lookup_insert_eq by (eapply lookup_lt_Some; eauto). reflexivity.
  - intros j Hj. apply list_lookup_insert_ne. congruence.
Qed.

Lemma autoTuneController_sets_gains_witness :
  autoTuneController 0 (controllers init) !! 1%nat = controllers init !! 1%nat.
Proof.
  refine (proj2 (autoTuneController_sets_gains 0 (controllers init) _ eq_refl)
            1%nat _).
  discriminate.
Defined.

End EditSpec.

(** ** The CSV export *)

Module ExportSpec.

Import Page dataExport.

Section WithHost.
Variable numberToString : float -> string.
Variable encodeURI : string -> string.

Lemma element_mapObjects {O O'} (f : O -> O') (row : Row O) :
  element numberToString <$> (snd <$> mapObjects f row)
  = element numberToString <$> (snd <$> row).
Proof.
  unfold mapObjects. rewrite <- !list_fmap_compose. apply list_fmap_ext.
  intros i [k v] _. simpl. destruct v; reflexivity.
Qed.

Lemma keys_mapObjects {O O'} (f : O -> O') (row : Row O) :
  fst <$> mapObjects f row = fst <$> row.
Proof.
  unfold mapObjects. rewrite <- !list_fmap_compose. apply list_fmap_ext.
  intros i [k v] _. reflexivity.
Qed.

Lemma csvContent_alt {O} (data : list (Row O)) :
  csvContent numberToString data
  = match head data with
    | None => Throw TypeError
    | Some first =>
        Normal
          ("data:text/csv;charset=utf-8,"
           +:+ join "," (fst <$> first) +:+ newline
           +:+ join newline
                 ((fun row => join "," (element numberToString <$> (snd <$> row)))
                    <$> data))
    end.
Proof. destruct data; reflexivity. Qed.

Lemma lines_mapObjects {O O'} (f : O -> O') (data : list (Row O)) :
  (fun row => join "," (element numberToString <$> (snd <$> row)))
    <$> (mapObjects f <$> data)
  = (fun row => join "," (element numberToString <$> (snd <$> row))) <$> data.
Proof.
  induction data as [|row data IH]; [reflexivity|].
  rewrite !fmap_cons, IH, element_mapObjects. reflexivity.
Qed.

Lemma export_same_for_objects {O O'} (f : O -> O') (data : list (Row O))
    (filename : string) :
  exportToCSV numberToString encodeURI (mapObjects f <$> data) filename
  = exportToCSV numberToString encodeURI data filename.
Proof.
  unfold exportToCSV. rewrite !csvContent_alt, lines_mapObjects.
  destruct data as [|first rest]; [reflexivity|].
  rewrite fmap_cons. cbn [head]. rewrite keys_mapObjects. reflexivity.
Qed.


End WithHost.

End ExportSpec.
